(** * BAPS-QB-SOLVER: the study-guide generator, embedded and verified

    A shallow embedding of the TypeScript sources

      - [types.ts]                    (AnswerData, GeminiModel, AppSettings, ProcessState)
      - [services/geminiService.ts]   (prompt assembly, two-tier generation, video polling)
      - [components/UploadArea.tsx]   (upload validation)
      - [components/AudioPlayer.tsx]  (PCM decoding, replay of the decoded buffer)
      - [App.tsx]                     (the ProcessState transitions, history, theme,
                                       time estimate and clock)
      - [components/VideoGenerator.tsx] (the video request)

    JavaScript strings are sequences of UTF-16 code units, promises are
    completions (resolved or rejected), hosted endpoints are oracles that the
    definitions take as section variables, and every outbound call is written
    to a log that the theorems inspect. *)

From Stdlib Require Import List NArith ZArith QArith Bool Lia String Ascii.
From Stdlib Require Import Qround DecimalString DecimalN DecimalPos.
Import ListNotations.

Set Implicit Arguments.

(* ================================================================== *)
(** * Part I: definitions *)
(* ================================================================== *)

(** ** JavaScript strings *)

Module Js.

(** A JS string: its UTF-16 code units. *)
Definition jsstring := list N.

(** An ASCII literal of the source, as code units. *)
Definition lit (s : string) : jsstring :=
  List.map N_of_ascii (list_ascii_of_string s).

Definition LF : jsstring := [10%N].      (* "\n" *)
Definition DQUOTE : jsstring := [34%N].  (* the double quote *)

Definition eqb (a b : jsstring) : bool :=
  if list_eq_dec N.eq_dec a b then true else false.

(** [WhiteSpace] and [LineTerminator] of ECMAScript: what
    [String.prototype.trim] strips. *)
Definition isWhiteSpace (c : N) : bool :=
  (N.eqb c 9 || N.eqb c 10 || N.eqb c 11 || N.eqb c 12 || N.eqb c 13
   || N.eqb c 32 || N.eqb c 160 || N.eqb c 5760
   || (N.leb 8192 c && N.leb c 8202)
   || N.eqb c 8232 || N.eqb c 8233 || N.eqb c 8239 || N.eqb c 8287
   || N.eqb c 12288 || N.eqb c 65279)%bool.

Fixpoint trimStart (s : jsstring) : jsstring :=
  match s with
  | [] => []
  | c :: r => if isWhiteSpace c then trimStart r else s
  end.

Definition trimEnd (s : jsstring) : jsstring := rev (trimStart (rev s)).

Definition trim (s : jsstring) : jsstring := trimEnd (trimStart s).

(** [s.startsWith(m)] at position 0. *)
Fixpoint startsWith (m s : jsstring) : bool :=
  match m, s with
  | [], _ => true
  | _ :: _, [] => false
  | a :: m', b :: s' => N.eqb a b && startsWith m' s'
  end.

(** [s.split(sep)] for a one-unit separator. *)
Fixpoint split_aux (sep : N) (cur : jsstring) (s : jsstring) : list jsstring :=
  match s with
  | [] => [rev cur]
  | c :: r => if N.eqb c sep then rev cur :: split_aux sep [] r
              else split_aux sep (c :: cur) r
  end.

Definition split (sep : N) (s : jsstring) : list jsstring := split_aux sep [] s.

(** Truthiness of a possibly undefined string: [undefined] and [""] are falsy. *)
Definition truthy (o : option jsstring) : bool :=
  match o with
  | Some (_ :: _) => true
  | _ => false
  end.

End Js.

Import Js.

(** ** types.ts *)

Module Types.

Inductive Status := idle | processing | success | error.

Record ProcessState := mkProcessState {
  status : Status;
  message : option jsstring
}.

Record AnswerData := mkAnswerData {
  text : jsstring;
  modelUsed : jsstring
}.

Record HistoryItem := mkHistoryItem {
  id : jsstring;
  fileName : jsstring;
  date : jsstring;
  data : AnswerData
}.

(** [enum GeminiModel]; [modelId] is the string each member stands for. *)
Inductive GeminiModel := FLASH | PRO.

Definition modelId (m : GeminiModel) : jsstring :=
  match m with
  | FLASH => lit "gemini-2.5-flash"
  | PRO => lit "gemini-3-pro-preview"
  end.

Inductive Depth := concise | detailed.
Inductive Language := english | hinglish.
Inductive Focus := exam | concept.

Record AppSettings := mkAppSettings {
  depth : Depth;
  language : Language;
  focus : Focus
}.

(** The browser's [File]: what the code reads of it. *)
Record File := mkFile {
  name : jsstring;
  type : jsstring;
  size : N
}.

End Types.

Import Types.

(** ** Promises and outbound calls *)

Module Async.

(** A thrown value: an [Error] with its message. *)
Record JsError := mkError { errMessage : jsstring }.

(** How an awaited call settles. *)
Inductive Completion (A : Type) :=
| Resolved (a : A)
| Rejected (e : JsError).

Arguments Resolved {A} a.
Arguments Rejected {A} e.

(** A computation over a log of type [L]: it threads the log of the
    outbound calls made so far and settles. *)
Definition M (L A : Type) := list L -> Completion A * list L.

Definition ret {L A} (a : A) : M L A := fun log => (Resolved a, log).

Definition throw {L A} (e : JsError) : M L A := fun log => (Rejected e, log).

Definition bind {L A B} (c : M L A) (k : A -> M L B) : M L B :=
  fun log =>
    match c log with
    | (Resolved a, log') => k a log'
    | (Rejected e, log') => (Rejected e, log')
    end.

(** [try { c } catch (e) { h e }] *)
Definition try_catch {L A} (c : M L A) (h : JsError -> M L A) : M L A :=
  fun log =>
    match c log with
    | (Resolved a, log') => (Resolved a, log')
    | (Rejected e, log') => h e log'
    end.

(** An awaited outbound call: the request is logged, the endpoint (which may
    answer by the calls it has already seen) settles it. *)
Definition call {L A} (endpoint : list L -> L -> Completion A) (req : L) : M L A :=
  fun log => (endpoint log req, log ++ [req]).

(** An awaited promise that makes no outbound call. *)
Definition await {L A} (c : Completion A) : M L A := fun log => (c, log).

End Async.

Import Async.

Notation "x <- c ;; k" := (bind c (fun x => k))
  (at level 61, c at next level, right associativity).

(** ** services/geminiService.ts *)

Module GeminiService.

(** *** The prompt of [generateAnswersFromPdf] (lines 58-83) *)

Definition PROMPT_BASE : jsstring :=
  lit "Generate a comprehensive study guide, solution key, and concept roadmap for the questions in this PDF. Use LaTeX for all math.".

Definition CONFIGURATION : jsstring :=
  LF ++ LF ++ lit "CONFIGURATION:".

Definition DEPTH_CONCISE : jsstring :=
  LF ++ lit "- DEPTH: Concise. Focus on key points and direct answers. Avoid fluff.".

Definition DEPTH_DETAILED : jsstring :=
  LF ++ lit "- DEPTH: Detailed. Provide in-depth explanations, background context, and step-by-step derivations.".

Definition LANGUAGE_HINGLISH : jsstring :=
  LF ++ lit "- LANGUAGE: Use English for technical terms but explain concepts using simple analogies or occasional Hindi/Gujarati context where helpful for Indian students (Hinglish style).".

Definition FOCUS_EXAM : jsstring :=
  LF ++ lit "- FOCUS: Exam Preparation. Highlight potential exam questions, common pitfalls, and marking scheme tips.".

Definition FOCUS_CONCEPT : jsstring :=
  LF ++ lit "- FOCUS: Concept Mastery. Focus on deep understanding, real-world applications, and connecting dots between topics.".

Definition USER_PREFIX : jsstring :=
  LF ++ LF ++ lit "USER SPECIFIC INSTRUCTIONS: ".

(** The value of [promptText] when line 85 is reached.  Each [let] is one
    statement of the source; [+=] appends. *)
Definition promptText (customInstructions : option jsstring)
                      (settings : option AppSettings) : jsstring :=
  let promptText := PROMPT_BASE in
  let promptText :=
    match settings with
    | Some settings =>
        let promptText := promptText ++ CONFIGURATION in
        let promptText :=
          match depth settings with
          | concise => promptText ++ DEPTH_CONCISE
          | _ => promptText ++ DEPTH_DETAILED
          end in
        let promptText :=
          match language settings with
          | hinglish => promptText ++ LANGUAGE_HINGLISH
          | _ => promptText
          end in
        match focus settings with
        | exam => promptText ++ FOCUS_EXAM
        | _ => promptText ++ FOCUS_CONCEPT
        end
    | None => promptText
    end in
  match customInstructions with
  | Some ci =>
      if (truthy customInstructions && (0 <? List.length (trim ci))%nat)%bool
      then promptText ++ USER_PREFIX ++ DQUOTE ++ ci ++ DQUOTE ++ lit "."
      else promptText
  | None => promptText
  end.

(** *** The document generation endpoint *)

(** What [ai.models.generateContent] is given. *)
Record GenerateContentRequest := mkRequest {
  model : GeminiModel;
  inlineData : option jsstring;   (* the base64 data; undefined when the data URL has no comma *)
  mimeType : jsstring;
  textPart : jsstring;
  systemInstruction : jsstring;
  thinkingBudget : option Z       (* config.thinkingConfig, when given *)
}.

(** The part of the response that is read: [response.text], possibly undefined. *)
Record GenerateContentResponse := mkResponse {
  response_text : option jsstring
}.

Definition FALLBACK_MESSAGE : jsstring :=
  lit "Failed to generate answers. Please try again later or check if the PDF is valid.".

Section Generate.

(** The template literal [SYSTEM_INSTRUCTION] (lines 12-35) is passed
    through unchanged; nothing below depends on its text. *)
Variable SYSTEM_INSTRUCTION : jsstring.

(** [FileReader.readAsDataURL]: the data URL given to [onload], or the
    error given to [onerror]. *)
Variable readAsDataURL : File -> Completion jsstring.

(** The hosted endpoint behind [ai.models.generateContent]. *)
Variable generateContent :
  list GenerateContentRequest -> GenerateContentRequest
  -> Completion GenerateContentResponse.

(** [result.split(',')[1]] *)
Definition fileToBase64 (file : File) : Completion (option jsstring) :=
  match readAsDataURL file with
  | Resolved result => Resolved (nth_error (split 44 result) 1)
  | Rejected e => Rejected e
  end.

Definition generateAnswersFromPdf
    (file : File) (customInstructions : option jsstring)
    (settings : option AppSettings) : M GenerateContentRequest AnswerData :=
  base64Data <- await (fileToBase64 file) ;;
  let mimeType := type file in
  let promptText := promptText customInstructions settings in
  try_catch
    (response <- call generateContent
                   (mkRequest PRO base64Data mimeType promptText
                              SYSTEM_INSTRUCTION (Some 2048%Z)) ;;
     match response_text response with
     | Some (c :: r) => ret (mkAnswerData (c :: r) (modelId PRO))
     | _ => throw (mkError (lit "Empty response from Pro model"))
     end)
    (fun error =>
       try_catch
         (response <- call generateContent
                        (mkRequest FLASH base64Data mimeType promptText
                                   SYSTEM_INSTRUCTION None) ;;
          match response_text response with
          | Some (c :: r) => ret (mkAnswerData (c :: r) (modelId FLASH))
          | _ => throw (mkError (lit "Empty response from Flash model"))
          end)
         (fun finalError => throw (mkError FALLBACK_MESSAGE))).

(** The two requests of a run: same data, MIME type and prompt; only the
    primary one carries a thinking budget. *)
Definition primaryRequest (file : File) (ci : option jsstring)
    (settings : option AppSettings) (base64Data : option jsstring) :=
  mkRequest PRO base64Data (type file) (promptText ci settings)
            SYSTEM_INSTRUCTION (Some 2048%Z).

Definition secondaryRequest (file : File) (ci : option jsstring)
    (settings : option AppSettings) (base64Data : option jsstring) :=
  mkRequest FLASH base64Data (type file) (promptText ci settings)
            SYSTEM_INSTRUCTION None.

End Generate.

(** A generation call that did not succeed: it threw, or its text is
    undefined or empty. *)
Definition emptyOrError (c : Completion GenerateContentResponse) : bool :=
  match c with
  | Rejected _ => true
  | Resolved response => negb (truthy (response_text response))
  end.

(** *** The video endpoint and its polling loop (lines 161-183) *)

(** The operation handle: [operation.done] and
    [operation.response?.generatedVideos?.[0]?.video?.uri]. *)
Record VideoOperation := mkOperation {
  done : bool;
  uri : option jsstring
}.

(** What [generateEducationalVideo] does to the outside, in order. *)
Inductive VeoEvent :=
| GenerateVideos (prompt : jsstring)
| SetTimeout (ms : N)
| GetVideosOperation (operation : VideoOperation).

Definition VIDEO_PROMPT_PREFIX : jsstring :=
  lit "Professional educational animation, 3d style, clear and bright visuals, explaining: ".

Definition NO_URI_MESSAGE : jsstring :=
  lit "Video generation completed but no URI returned.".

Section Video.

Variable generateVideos : list VeoEvent -> VeoEvent -> Completion VideoOperation.
Variable getVideosOperation : list VeoEvent -> VeoEvent -> Completion VideoOperation.

(** [while (!operation.done) { await sleep(5000); operation = await get(operation) }].
    The loop has no bound of its own; [fuel] bounds how long the run is
    observed, and [None] says that the loop is still waiting then. *)
Fixpoint poll (fuel : nat) (operation : VideoOperation)
  : M VeoEvent (option VideoOperation) :=
  if done operation then ret (Some operation)
  else
    match fuel with
    | O => ret None
    | S fuel' =>
        _ <- call (fun _ _ => Resolved tt) (SetTimeout 5000) ;;
        operation' <- call getVideosOperation (GetVideosOperation operation) ;;
        poll fuel' operation'
    end.

(** What one round of the loop does to the outside: one sleep of five
    seconds, then one query of the operation in hand. *)
Definition round (operation : VideoOperation) : list VeoEvent :=
  [SetTimeout 5000; GetVideosOperation operation].

(** [polls op log n op' log']: from the operation [op] and the log [log], the
    loop makes [n] rounds, each on an operation that is not done and each
    answered by the endpoint, and then holds [op'] with the log [log']. *)
Inductive polls : VideoOperation -> list VeoEvent -> nat
                  -> VideoOperation -> list VeoEvent -> Prop :=
| polls_here op log : polls op log 0 op log
| polls_round op log op1 n op' log' :
    done op = false ->
    getVideosOperation (log ++ [SetTimeout 5000]) (GetVideosOperation op)
    = Resolved op1 ->
    polls op1 (log ++ round op) n op' log' ->
    polls op log (S n) op' log'.

Definition generateEducationalVideo (fuel : nat) (prompt : jsstring)
  : M VeoEvent (option jsstring) :=
  operation <- call generateVideos (GenerateVideos (VIDEO_PROMPT_PREFIX ++ prompt)) ;;
  finished <- poll fuel operation ;;
  match finished with
  | None => ret None
  | Some operation =>
      match uri operation with
      | Some (c :: r) => ret (Some (c :: r))
      | _ => throw (mkError NO_URI_MESSAGE)
      end
  end.

End Video.

(** *** The speech endpoint (lines 140-159) *)

Definition SUMMARY_PREFIX : jsstring :=
  lit "Read this study guide clearly and professionally. Content: ".

Definition NO_AUDIO_MESSAGE : jsstring := lit "No audio generated by the model.".

Section Audio.

(** The speech endpoint, asked with the summary prompt; it answers with
    [response.candidates?.[0]?.content?.parts?.[0]?.inlineData?.data]. *)
Variable synthesize : list jsstring -> jsstring -> Completion (option jsstring).

Definition generateAudioGuide (text : jsstring) : M jsstring jsstring :=
  let summaryPrompt := SUMMARY_PREFIX ++ firstn 4000 text in
  base64Audio <- call synthesize summaryPrompt ;;
  match base64Audio with
  | Some (c :: r) => ret (c :: r)
  | _ => throw (mkError NO_AUDIO_MESSAGE)
  end.

End Audio.

End GeminiService.

(** ** components/UploadArea.tsx *)

Module UploadArea.

Definition PDF_MIME : jsstring := lit "application/pdf".
Definition TYPE_ERROR : jsstring := lit "Only PDF files are allowed.".
Definition SIZE_ERROR : jsstring := lit "File size exceeds the 20MB limit.".

(** What a run of [validateAndSetFile] leaves behind: the [error] state and
    the calls of the [onFileSelect] prop. *)
Record Validation := mkValidation {
  error : option jsstring;
  onFileSelect : list File
}.

Definition validateAndSetFile (file : File) : Validation :=
  let error := @None jsstring in                       (* setError(null) *)
  if negb (Js.eqb (type file) PDF_MIME)
  then mkValidation (Some TYPE_ERROR) []
  else if (20 * 1024 * 1024 <? size file)%N
  then mkValidation (Some SIZE_ERROR) []
  else mkValidation error [file].

End UploadArea.

(** ** components/AudioPlayer.tsx *)

Module AudioPlayer.

(** *** Typed arrays *)

(** [bytes[i] = binaryString.charCodeAt(i)] into a [Uint8Array]: the store
    keeps the low eight bits. *)
Definition decodeBase64_bytes (binaryString : jsstring) : list N :=
  List.map (fun c => (c mod 256)%N) binaryString.

(** One element of an [Int16Array] view: two bytes in the platform's byte
    order, read as a signed 16-bit integer. *)
Definition int16_of_bytes (bigEndian : bool) (b0 b1 : N) : Z :=
  let u := if bigEndian then (256 * Z.of_N b0 + Z.of_N b1)%Z
           else (Z.of_N b0 + 256 * Z.of_N b1)%Z in
  if (u <? 32768)%Z then u else (u - 65536)%Z.

Fixpoint int16_elements (bigEndian : bool) (bytes : list N) : list Z :=
  match bytes with
  | b0 :: b1 :: rest => int16_of_bytes bigEndian b0 b1 :: int16_elements bigEndian rest
  | _ => []
  end.

Definition RANGE_ERROR : jsstring :=
  lit "byte length of Int16Array should be a multiple of 2".

(** [new Int16Array(buffer)]: a RangeError unless the byte length is a
    multiple of the element size. *)
Definition Int16Array (bigEndian : bool) (bytes : list N) : Completion (list Z) :=
  if Nat.even (List.length bytes) then Resolved (int16_elements bigEndian bytes)
  else Rejected (mkError RANGE_ERROR).

(** [a[i] = v] on a typed array: a store outside the array does nothing. *)
Fixpoint store {A} (i : nat) (v : A) (a : list A) : list A :=
  match a, i with
  | [], _ => []
  | _ :: r, O => v :: r
  | x :: r, S i' => x :: store i' v r
  end.

(** [dataInt16[i] / 32768.0], kept in a [Float32Array].  The quotient of a
    16-bit integer by a power of two is exact in both float formats, so the
    sample is this rational. *)
Definition sample (v : Z) : Q := Qmake v 32768.

(** [for (let i = 0; i < frameCount; i++) channelData[i] = dataInt16[i] / 32768.0] *)
Definition fillChannel (dataInt16 : list Z) (frameCount : nat) (channelData : list Q)
  : list Q :=
  fold_left (fun channelData i => store i (sample (nth i dataInt16 0%Z)) channelData)
            (seq 0 frameCount) channelData.

Record AudioBuffer := mkAudioBuffer {
  numberOfChannels : nat;
  sampleRate : N;
  channelData : list Q
}.

Definition NOT_SUPPORTED_ERROR : jsstring :=
  lit "The number of frames provided (0) is less than or equal to the minimum bound (0).".

(** [ctx.createBuffer(numChannels, frameCount, sampleRate)]: a
    NotSupportedError (here with the text one browser gives) when there is
    no channel or no frame; otherwise a buffer of zeroed samples.  The rate
    of the source, 24000, is in the range every context takes. *)
Definition createBuffer (numChannels frameCount : nat) (sampleRate : N)
  : Completion AudioBuffer :=
  if ((numChannels =? 0) || (frameCount =? 0))%nat
  then Rejected (mkError NOT_SUPPORTED_ERROR)
  else Resolved (mkAudioBuffer numChannels sampleRate (repeat (0 : Q) frameCount)).

(** Lines 56-67: the raw PCM bytes become the samples of a one-channel
    buffer. *)
Definition decodePcm (bigEndian : bool) (audioData : list N) : Completion AudioBuffer :=
  match Int16Array bigEndian audioData with
  | Rejected e => Rejected e
  | Resolved dataInt16 =>
      let numChannels := 1%nat in
      let sampleRate := 24000%N in
      let frameCount := Nat.div (List.length dataInt16) numChannels in
      match createBuffer numChannels frameCount sampleRate with
      | Rejected e => Rejected e
      | Resolved buffer =>
          let channelData := channelData buffer in      (* getChannelData(0) *)
          Resolved (mkAudioBuffer (numberOfChannels buffer) (AudioPlayer.sampleRate buffer)
                      (fillChannel dataInt16 frameCount channelData))
      end
  end.

(** *** The component *)

(** What the component does to the outside, in order. *)
Inductive PlayerEvent :=
| Synthesize (summaryPrompt : jsstring)   (* the request of generateAudioGuide *)
| NewAudioContext
| Resume
| Start (buffer : AudioBuffer)            (* source.start(0) on a source of this buffer *)
| Stop.

Record PlayerState := mkPlayer {
  isPlaying : bool;
  isLoading : bool;
  error : option jsstring;
  hasAudio : bool;
  audioContextRef : bool;                 (* is [audioContextRef.current] set? *)
  sourceRef : option AudioBuffer;         (* the buffer of [sourceRef.current], if set *)
  audioBufferRef : option AudioBuffer
}.

Definition initialPlayer : PlayerState :=
  mkPlayer false false None false false None None.

Definition FAILED_AUDIO : jsstring := lit "Failed to generate audio.".

Definition synthCalls (log : list PlayerEvent) : nat :=
  List.length (filter (fun e => match e with Synthesize _ => true | _ => false end) log).

Section Component.

Variable text : jsstring.                       (* the [text] prop *)
Variable bigEndian : bool.                      (* the platform's byte order *)
Variable synthesize : list jsstring -> jsstring -> Completion (option jsstring).
Variable atob : jsstring -> Completion jsstring.
(** Whether the audio context is in state ['suspended'] when asked. *)
Variable suspended : list PlayerEvent -> bool.

Definition decodeBase64 (base64 : jsstring) : Completion (list N) :=
  match atob base64 with
  | Resolved binaryString => Resolved (decodeBase64_bytes binaryString)
  | Rejected e => Rejected e
  end.

Definition playBuffer (buffer : AudioBuffer) (st : PlayerState * list PlayerEvent)
  : PlayerState * list PlayerEvent :=
  let (s, log) := st in
  if negb (audioContextRef s) then (s, log)
  else
    let log := if suspended log then log ++ [Resume] else log in
    (mkPlayer true (isLoading s) (error s) (hasAudio s) (audioContextRef s)
              (Some buffer) (audioBufferRef s),
     log ++ [Start buffer]).

Definition stopAudio (st : PlayerState * list PlayerEvent)
  : PlayerState * list PlayerEvent :=
  let (s, log) := st in
  let (src, log) := match sourceRef s with
                    | Some _ => (@None AudioBuffer, log ++ [Stop])
                    | None => (None, log)
                    end in
  (mkPlayer false (isLoading s) (error s) (hasAudio s) (audioContextRef s)
            src (audioBufferRef s), log).

(** The synthesis requests among the component's events, as the endpoint
    has seen them. *)
Definition requestsOf (log : list PlayerEvent) : list jsstring :=
  flat_map (fun e => match e with Synthesize p => [p] | _ => [] end) log.

Definition setLoaded (err : option jsstring) (s : PlayerState) : PlayerState :=
  mkPlayer (isPlaying s) false err (hasAudio s) (audioContextRef s)
           (sourceRef s) (audioBufferRef s).

(** [catch (err) { setError(err.message || "Failed to generate audio.") }] *)
Definition caught (e : JsError) : option jsstring :=
  match errMessage e with
  | [] => Some FAILED_AUDIO
  | m => Some m
  end.

Definition handleGenerateAndPlay (st : PlayerState * list PlayerEvent)
  : PlayerState * list PlayerEvent :=
  let (s, log) := st in
  if isPlaying s then stopAudio st
  else
    match hasAudio s, audioBufferRef s with
    | true, Some buffer => playBuffer buffer st
    | _, _ =>
        (* setIsLoading(true); setError(null); try { ... } *)
        let '(base64Audio, _) :=
          GeminiService.generateAudioGuide synthesize text (requestsOf log) in
        let log := log ++ [Synthesize (GeminiService.SUMMARY_PREFIX ++ firstn 4000 text)] in
        match base64Audio with
        | Rejected e => (setLoaded (caught e) s, log)
        | Resolved base64Audio =>
            match decodeBase64 base64Audio with
            | Rejected e => (setLoaded (caught e) s, log)
            | Resolved audioData =>
                let log := if audioContextRef s then log else log ++ [NewAudioContext] in
                match decodePcm bigEndian audioData with
                | Rejected e =>
                    (mkPlayer (isPlaying s) false (caught e) (hasAudio s) true
                              (sourceRef s) (audioBufferRef s), log)
                | Resolved buffer =>
                    let (s', log) :=
                      playBuffer buffer
                        (mkPlayer (isPlaying s) true None true true
                                  (sourceRef s) (Some buffer), log) in
                    (setLoaded None s', log)
                end
            end
        end
    end.

(** [source.onended = () => setIsPlaying(false)] *)
Definition onended (st : PlayerState * list PlayerEvent)
  : PlayerState * list PlayerEvent :=
  let (s, log) := st in
  (mkPlayer false (isLoading s) (error s) (hasAudio s) (audioContextRef s)
            (sourceRef s) (audioBufferRef s), log).

(** What happens to the mounted component: a click on its button, or the
    end of the playing source. *)
Inductive Action := Click | Ended.

Definition act (st : PlayerState * list PlayerEvent) (a : Action)
  : PlayerState * list PlayerEvent :=
  match a with
  | Click => handleGenerateAndPlay st
  | Ended => onended st
  end.

Definition run (actions : list Action) (st : PlayerState * list PlayerEvent)
  : PlayerState * list PlayerEvent :=
  fold_left act actions st.

End Component.

(** Once a buffer is decoded it is stored, and the audio context exists. *)
Definition decoded_inv (st : PlayerState * list PlayerEvent) : Prop :=
  hasAudio (fst st) = true ->
  audioContextRef (fst st) = true /\ exists buffer, audioBufferRef (fst st) = Some buffer.

End AudioPlayer.

(** ** App.tsx *)

Module App.

Inductive Tab := upload | view | historyTab | settingsTab.

(** A [generateAnswersFromPdf] call that [handleGenerate] is waiting for,
    with what its closure holds: the file and the history of the render in
    which the button was clicked. *)
Record Pending := mkPending {
  pendingFile : File;
  pendingHistory : list HistoryItem
}.

Record AppState := mkApp {
  activeTab : Tab;
  file : option File;
  customPrompt : jsstring;
  processState : ProcessState;
  answerData : option AnswerData;
  elapsedTime : N;
  history : list HistoryItem;
  pending : list Pending
}.

(** The state after mounting; the history is what local storage held. *)
Definition mounted (savedHistory : list HistoryItem) : AppState :=
  mkApp upload None [] (mkProcessState idle None) None 0 savedHistory [].

Definition ANALYZING : jsstring := lit "Analyzing document...".
Definition UNEXPECTED : jsstring :=
  lit "An unexpected error occurred while processing the PDF.".

(** [handleGenerate] up to its [await]. *)
Definition handleGenerate_begin (s : AppState) : AppState :=
  match file s with
  | None => s
  | Some f =>
      mkApp (activeTab s) (file s) (customPrompt s)
            (mkProcessState processing (Some ANALYZING))
            None 0 (history s)
            (pending s ++ [mkPending f (history s)])
  end.

(** [addToHistory]: the new item goes in front of the history the closure
    holds; the list is given to [setHistory] and then written to local
    storage.  [stored] is how that [localStorage.setItem] ends (it throws
    when the write is refused, for instance over quota); the result is the
    list given to [setHistory] and that outcome. *)
Definition addToHistory (stored : Completion unit) (now today : jsstring)
    (closureHistory : list HistoryItem) (fileName : jsstring) (data : AnswerData)
  : list HistoryItem * Completion unit :=
  (mkHistoryItem now fileName today data :: closureHistory, stored).

(** [error.message || "An unexpected error occurred ..."] *)
Definition shownMessage (e : JsError) : jsstring :=
  match errMessage e with [] => UNEXPECTED | m => m end.

(** [handleGenerate] after its [await]: the call of [p] has settled as [c];
    [now] and [today] are what [Date] gives, [stored] is how the write of
    the history to local storage ends.  A resolved call sets the answer and
    the history and then, if that write threw, lands in the catch like a
    rejected call. *)
Definition handleGenerate_settle (p : Pending) (c : Completion AnswerData)
    (stored : Completion unit) (now today : jsstring) (s : AppState) : AppState :=
  match c with
  | Resolved result =>
      match addToHistory stored now today (pendingHistory p)
                         (name (pendingFile p)) result with
      | (updated, Resolved _) =>
          mkApp view (file s) (customPrompt s) (mkProcessState success None)
                (Some result) (elapsedTime s) updated (pending s)
      | (updated, Rejected e) =>
          mkApp (activeTab s) (file s) (customPrompt s)
                (mkProcessState error (Some (shownMessage e)))
                (Some result) (elapsedTime s) updated (pending s)
      end
  | Rejected e =>
      mkApp (activeTab s) (file s) (customPrompt s)
            (mkProcessState error (Some (shownMessage e)))
            (answerData s) (elapsedTime s) (history s) (pending s)
  end.

Definition loadFromHistory (item : HistoryItem) (s : AppState) : AppState :=
  mkApp view (file s) (customPrompt s) (mkProcessState success None)
        (Some (data item)) (elapsedTime s) (history s) (pending s).

Definition reset (s : AppState) : AppState :=
  mkApp upload None [] (mkProcessState idle None) None 0 (history s) (pending s).

(** The "Try Again" button: [setProcessState({status: 'idle'})]. *)
Definition tryAgain (s : AppState) : AppState :=
  mkApp (activeTab s) (file s) (customPrompt s) (mkProcessState idle None)
        (answerData s) (elapsedTime s) (history s) (pending s).

Definition setFile (f : File) (s : AppState) : AppState :=
  mkApp (activeTab s) (Some f) (customPrompt s) (processState s)
        (answerData s) (elapsedTime s) (history s) (pending s).

Definition setActiveTab (t : Tab) (s : AppState) : AppState :=
  mkApp t (file s) (customPrompt s) (processState s)
        (answerData s) (elapsedTime s) (history s) (pending s).

Definition clearHistory (s : AppState) : AppState :=
  mkApp (activeTab s) (file s) (customPrompt s) (processState s)
        (answerData s) (elapsedTime s) [] (pending s).

Definition takePending (k : nat) (s : AppState) : AppState :=
  mkApp (activeTab s) (file s) (customPrompt s) (processState s)
        (answerData s) (elapsedTime s) (history s)
        (firstn k (pending s) ++ skipn (S k) (pending s)).

(** What can happen to the mounted application. *)
Inductive Event :=
| EvGenerate                                   (* the "Generate" button *)
| EvSettled (k : nat) (c : Completion AnswerData) (stored : Completion unit)
            (now today : jsstring)
| EvLoadFromHistory (item : HistoryItem)       (* "View Guide" *)
| EvReset                                      (* "Process New File", or the X of the upload area *)
| EvTryAgain
| EvSelectFile (f : File)
| EvTab (t : Tab)
| EvClearHistory.

Definition statusOf (s : AppState) : Status := status (processState s).

(** The rendered controls: when the event can happen in state [s]. *)
Inductive enabled (s : AppState) : Event -> Prop :=
| en_generate :
    activeTab s = upload -> file s <> None -> statusOf s <> processing ->
    enabled s EvGenerate
| en_settled k c stored now today :
    (k < List.length (pending s))%nat -> enabled s (EvSettled k c stored now today)
| en_load item :
    activeTab s = historyTab -> In item (history s) ->
    enabled s (EvLoadFromHistory item)
| en_reset_view :
    activeTab s = view -> answerData s <> None -> enabled s EvReset
| en_reset_clear :
    activeTab s = upload -> file s <> None -> statusOf s <> processing ->
    enabled s EvReset
| en_try_again :
    activeTab s = upload -> statusOf s = error -> enabled s EvTryAgain
| en_select f :
    activeTab s = upload -> statusOf s <> processing ->
    UploadArea.onFileSelect (UploadArea.validateAndSetFile f) = [f] ->
    enabled s (EvSelectFile f)
| en_tab t :
    (t = view -> statusOf s = success) -> enabled s (EvTab t)
| en_clear_history :
    activeTab s = historyTab -> history s <> [] -> enabled s EvClearHistory.

(** The handler that the event runs. *)
Definition handle (e : Event) (s : AppState) : AppState :=
  match e with
  | EvGenerate => handleGenerate_begin s
  | EvSettled k c stored now today =>
      match nth_error (pending s) k with
      | Some p => handleGenerate_settle p c stored now today (takePending k s)
      | None => s
      end
  | EvLoadFromHistory item => loadFromHistory item s
  | EvReset => reset s
  | EvTryAgain => tryAgain s
  | EvSelectFile f => setFile f s
  | EvTab t => setActiveTab t s
  | EvClearHistory => clearHistory s
  end.

Definition step (s : AppState) (e : Event) (s' : AppState) : Prop :=
  enabled s e /\ s' = handle e s.

(** The runs of the application from mounting: [run_from saved seen s] says
    that the application mounted with the history [saved] has reached [s],
    and [seen] lists the statuses it has had, the latest first. *)
Inductive run_from (savedHistory : list HistoryItem)
  : list Status -> AppState -> Prop :=
| run_mounted : run_from savedHistory [idle] (mounted savedHistory)
| run_step seen s e s' :
    run_from savedHistory seen s -> step s e s' ->
    run_from savedHistory (statusOf s' :: seen) s'.

(** The state machine of the specification, in its words:
    idle -> processing -> (success | error) -> idle. *)
Inductive spec_transition : Status -> Status -> Prop :=
| sp_start : spec_transition idle processing
| sp_success : spec_transition processing success
| sp_error : spec_transition processing error
| sp_success_idle : spec_transition success idle
| sp_error_idle : spec_transition error idle.

(** The status changes the handlers make, by handler. *)
Inductive code_transition : Event -> Status -> Status -> Prop :=
| ct_generate a : a <> processing -> code_transition EvGenerate a processing
| ct_settled_ok a k r u now today :
    code_transition (EvSettled k (Resolved r) (Resolved u) now today) a success
| ct_settled_unstored a k r e now today :
    code_transition (EvSettled k (Resolved r) (Rejected e) now today) a error
| ct_settled_err a k e stored now today :
    code_transition (EvSettled k (Rejected e) stored now today) a error
| ct_load a item : code_transition (EvLoadFromHistory item) a success
| ct_reset a : a <> processing -> code_transition EvReset a idle
| ct_try_again : code_transition EvTryAgain error idle
| ct_select a f : code_transition (EvSelectFile f) a a
| ct_tab a t : code_transition (EvTab t) a a
| ct_clear a : code_transition EvClearHistory a a.

End App.

(** ** Reading a prompt back *)

Module Directives.

Import GeminiService.

(** The directive lines the prompt assembler can write. *)
Inductive Directive :=
| DepthDirective (d : Depth)
| LanguageDirective
| FocusDirective (f : Focus).

(** The directive whose text starts at the head of [s], if any. *)
Definition directiveAt (s : jsstring) : option Directive :=
  if startsWith DEPTH_CONCISE s then Some (DepthDirective concise)
  else if startsWith DEPTH_DETAILED s then Some (DepthDirective detailed)
  else if startsWith LANGUAGE_HINGLISH s then Some LanguageDirective
  else if startsWith FOCUS_EXAM s then Some (FocusDirective exam)
  else if startsWith FOCUS_CONCEPT s then Some (FocusDirective concept)
  else None.

(** Every occurrence of a directive text in [s], from left to right. *)
Fixpoint directivesIn (s : jsstring) : list Directive :=
  match s with
  | [] => []
  | _ :: r =>
      match directiveAt s with
      | Some d => d :: directivesIn r
      | None => directivesIn r
      end
  end.

(** The text that lines 81-83 add for a custom instruction. *)
Definition userInstructions (customInstructions : option jsstring) : jsstring :=
  match customInstructions with
  | Some ci =>
      if forallb isWhiteSpace ci then []
      else USER_PREFIX ++ DQUOTE ++ ci ++ DQUOTE ++ lit "."
  | None => []
  end.

End Directives.

(** ** Scenarios

    Concrete endpoints and inputs, for running the definitions. *)

Module Scenario.

Import GeminiService.

Definition reader (f : File) : Completion jsstring :=
  Resolved (lit "data:application/pdf;base64,JVBERi0xLjQ=").

(** The primary tier is down, the secondary tier answers. *)
Definition primaryDown (log : list GenerateContentRequest)
    (req : GenerateContentRequest) : Completion GenerateContentResponse :=
  match model req with
  | PRO => Rejected (mkError (lit "503 Service Unavailable"))
  | FLASH => Resolved (mkResponse (Some (lit "# Study Plan")))
  end.

(** The primary tier is down, the secondary tier answers with no text. *)
Definition bothDown (log : list GenerateContentRequest)
    (req : GenerateContentRequest) : Completion GenerateContentResponse :=
  match model req with
  | PRO => Rejected (mkError (lit "503 Service Unavailable"))
  | FLASH => Resolved (mkResponse (Some []))
  end.

Definition bank : File := mkFile (lit "bank.pdf") (lit "application/pdf") 2097152.

(** A speech endpoint that answers with the base64 text of four bytes, two
    samples, and the [atob] of that text. *)
Definition speech (log : list jsstring) (prompt : jsstring)
  : Completion (option jsstring) :=
  Resolved (Some (lit "AID/fw==")).

Definition atob4 (base64 : jsstring) : Completion jsstring :=
  if Js.eqb base64 (lit "AID/fw==") then Resolved [0; 128; 255; 127]%N
  else Rejected (mkError (lit "The string to be decoded is not correctly encoded.")).

(** A video endpoint whose operation is done at the third query, with no
    media URI. *)
Definition startVideo (log : list VeoEvent) (req : VeoEvent)
  : Completion VideoOperation :=
  Resolved (mkOperation false None).

Definition doneAtThird (log : list VeoEvent) (req : VeoEvent)
  : Completion VideoOperation :=
  Resolved (mkOperation (6 <=? List.length log)%nat None).

(** A guide kept in local storage by an earlier session. *)
Definition savedGuide : HistoryItem :=
  mkHistoryItem (lit "1700000000000") (lit "bank.pdf") (lit "11/14/2023")
                (mkAnswerData (lit "# Study Plan") (modelId PRO)).

End Scenario.

(** ** components/UploadArea.tsx: the handlers around the validator *)

Module UploadHandlers.

(** The props that the handlers read. *)
Record Props := mkProps {
  disabled : bool;
  selectedFile : option File
}.

(** The component's state, with what it has done to the outside: the files
    given to [onFileSelect] and the clicks sent to the hidden input. *)
Record UploadState := mkUpload {
  isDragging : bool;
  error : option jsstring;
  selected : list File;
  inputClicks : nat
}.

Definition initialUpload : UploadState := mkUpload false None [] 0.

Definition validateAndSetFile (file : File) (s : UploadState) : UploadState :=
  let v := UploadArea.validateAndSetFile file in
  mkUpload (isDragging s) (UploadArea.error v)
           (selected s ++ UploadArea.onFileSelect v) (inputClicks s).

Definition handleDragOver (props : Props) (s : UploadState) : UploadState :=
  if disabled props then s
  else mkUpload true (error s) (selected s) (inputClicks s).

Definition handleDragLeave (s : UploadState) : UploadState :=
  mkUpload false (error s) (selected s) (inputClicks s).

(** [files] is [e.dataTransfer.files]; an absent list is the empty one. *)
Definition handleDrop (props : Props) (files : list File) (s : UploadState)
  : UploadState :=
  let s := mkUpload false (error s) (selected s) (inputClicks s) in
  if disabled props then s
  else match files with
       | file :: _ => validateAndSetFile file s
       | [] => s
       end.

Definition handleInputChange (files : list File) (s : UploadState) : UploadState :=
  match files with
  | file :: _ => validateAndSetFile file s
  | [] => s
  end.

Definition handleClick (props : Props) (s : UploadState) : UploadState :=
  match selectedFile props with
  | None =>
      if negb (disabled props)
      then mkUpload (isDragging s) (error s) (selected s) (S (inputClicks s))
      else s
  | Some _ => s
  end.

(** What the user does to the upload area, under the props of that moment. *)
Inductive Gesture :=
| DragOver (props : Props)
| DragLeave
| Drop (props : Props) (files : list File)
| InputChange (files : list File)
| ClickArea (props : Props).

Definition gesture (s : UploadState) (g : Gesture) : UploadState :=
  match g with
  | DragOver props => handleDragOver props s
  | DragLeave => handleDragLeave s
  | Drop props files => handleDrop props files s
  | InputChange files => handleInputChange files s
  | ClickArea props => handleClick props s
  end.

Definition gestures (gs : list Gesture) (s : UploadState) : UploadState :=
  fold_left gesture gs s.

(** A file the validator lets through. *)
Definition acceptable (f : File) : Prop :=
  type f = UploadArea.PDF_MIME /\ (size f <= 20 * 1024 * 1024)%N.

End UploadHandlers.

(** ** Telling strings apart *)

Module Compare.

(** [clash a b]: the two strings differ at a position that both have. *)
Fixpoint clash (a b : jsstring) : bool :=
  match a, b with
  | x :: a', y :: b' => if N.eqb x y then clash a' b' else true
  | _, _ => false
  end.

Definition shorter (a b : jsstring) : bool :=
  (List.length a <? List.length b)%nat.

(** [told_apart up a b]: [a] and [b] differ, and go on differing when
    either or both are continued by [up] and anything after it. *)
Definition told_apart (up a b : jsstring) : bool :=
  ((clash a b || shorter a b || shorter b a)
   && (clash (a ++ up) b || shorter b (a ++ up))
   && (clash a (b ++ up) || shorter a (b ++ up))
   && clash (a ++ up) (b ++ up))%bool.

End Compare.

(** ** components/AudioPlayer.tsx: what the component keeps true *)

Module PlayerInvariants.

Import AudioPlayer.

(** A buffer as the decoding makes it: one channel at 24 kHz, samples in
    [-1, 1]. *)
Definition wellFormed (b : AudioBuffer) : Prop :=
  numberOfChannels b = 1%nat
  /\ sampleRate b = 24000%N
  /\ Forall (fun x => (-1 # 1 <= x)%Q /\ (x <= 1)%Q) (channelData b).

(** While something plays there is a source to stop; whatever was started
    is the buffer that is stored; the stored buffer is well formed. *)
Definition playing_inv (st : PlayerState * list PlayerEvent) : Prop :=
  (isPlaying (fst st) = true -> sourceRef (fst st) <> None)
  /\ (forall b, In (Start b) (snd st) ->
      hasAudio (fst st) = true /\ audioBufferRef (fst st) = Some b)
  /\ (forall b, audioBufferRef (fst st) = Some b -> wellFormed b).

End PlayerInvariants.

(** ** App.tsx: theme, time estimate and time display *)

Module AppShell.

(** The theme: the [isDarkMode] state, whether the body carries the class
    [dark], and the item [study_guider_theme] of local storage. *)
Record ThemeState := mkTheme {
  isDarkMode : bool;
  bodyDark : bool;
  study_guider_theme : option jsstring
}.

(** The mount effect, on a page whose body carries the class or not. *)
Definition mountTheme (savedTheme : option jsstring) (bodyDark0 : bool) : ThemeState :=
  match savedTheme with
  | Some t =>
      if Js.eqb t (lit "dark") then mkTheme true true savedTheme
      else mkTheme false bodyDark0 savedTheme
  | None => mkTheme false bodyDark0 None
  end.

(** [stored] is how [localStorage.setItem] ends.  It is the last statement
    of the handler: when it throws, the mode and the class have changed and
    the stored item is the old one. *)
Definition toggleTheme (stored : Completion unit) (s : ThemeState) : ThemeState :=
  let written (t : jsstring) :=
    match stored with
    | Resolved _ => Some t
    | Rejected _ => study_guider_theme s
    end in
  if negb (isDarkMode s)
  then mkTheme true true (written (lit "dark"))
  else mkTheme false false (written (lit "light")).

(** [Math.min(Math.floor(15 + fileSizeMB * 10), 120)] with
    [fileSizeMB = file.size / (1024 * 1024)].  The division by a power of
    two, the product and the sum are exact in double precision for every
    size below 2^45, so the value is this rational computation. *)
Definition estimatedTime (size : N) : Z :=
  let fileSizeMB := (inject_Z (Z.of_N size) / inject_Z (1024 * 1024))%Q in
  Z.min (Qfloor (15 + fileSizeMB * 10)) 120.

(** [n.toString()] of a non-negative integer: its decimal digits. *)
Definition toString (n : N) : jsstring :=
  lit (NilZero.string_of_uint (N.to_uint n)).

(** [s.padStart(targetLength, pad)] for a one-unit pad. *)
Definition padStart (targetLength : nat) (pad : N) (s : jsstring) : jsstring :=
  repeat pad (targetLength - List.length s) ++ s.

Definition formatTime (seconds : N) : jsstring :=
  let mins := (seconds / 60)%N in
  let secs := (seconds mod 60)%N in
  toString mins ++ lit ":" ++ padStart 2 48 (toString secs).

(** Reading a decimal numeral back; [None] when the text is not one. *)
Definition readDecimal (s : jsstring) : option N :=
  if forallb (fun c => (c <? 256)%N) s
  then option_map N.of_uint
         (NilZero.uint_of_string (string_of_list_ascii (List.map ascii_of_N s)))
  else None.

End AppShell.

(** ** components/VideoGenerator.tsx *)

Module VideoGenerator.

Import GeminiService.

Record VideoState := mkVideo {
  topic : jsstring;
  videoUrl : option jsstring;
  isGenerating : bool;
  statusMsg : jsstring;
  error : option jsstring
}.

(** What [handleGenerate] does to the outside, in order. *)
Inductive VgEvent :=
| HasSelectedApiKey
| OpenSelectKey
| Veo (e : VeoEvent)
| Fetch (url : jsstring)
| CreateObjectURL (blob : jsstring).

(** How a run of [handleGenerate] is found: settled, or still inside the
    polling loop of [generateEducationalVideo]. *)
Inductive Outcome :=
| Settled (s : VideoState) (log : list VgEvent)
| Waiting (s : VideoState) (log : list VgEvent).

Definition CHECKING : jsstring := lit "Checking Permissions...".
Definition DREAMING : jsstring := lit "Dreaming up visuals...".
Definition RENDERING : jsstring := lit "Rendering animation...".
Definition CONTEXT_LEAD : jsstring := lit ". Context for video generation: ".
Definition FAILED_VIDEO : jsstring := lit "Failed to generate video.".

(** [catch (err) { setError(err.message || "Failed to generate video.") }
    finally { setIsGenerating(false) }] *)
Definition failed (e : JsError) (s : VideoState) : VideoState :=
  mkVideo (topic s) (videoUrl s) false (statusMsg s)
          (Some (match errMessage e with [] => FAILED_VIDEO | m => m end)).

Definition setStatusMsg (m : jsstring) (s : VideoState) : VideoState :=
  mkVideo (topic s) (videoUrl s) (isGenerating s) m (error s).

Section Component.

Variable contextText : jsstring.              (* the [contextText] prop *)
Variable API_KEY : option jsstring.           (* [process.env.API_KEY] *)
Variable aistudio : bool.                     (* is [window.aistudio] there? *)
Variable hasSelectedApiKey : Completion bool.
Variable openSelectKey : Completion bool.
Variable generateVideos : list VeoEvent -> VeoEvent -> Completion VideoOperation.
Variable getVideosOperation : list VeoEvent -> VeoEvent -> Completion VideoOperation.
(** [fetch(url)] followed by [response.blob()]. *)
Variable fetchBlob : jsstring -> Completion jsstring.
Variable createObjectURL : jsstring -> jsstring.

(** Step 1 of the handler: the key check. *)
Definition checkKey : Completion unit * list VgEvent :=
  if aistudio then
    match hasSelectedApiKey with
    | Rejected e => (Rejected e, [HasSelectedApiKey])
    | Resolved hasKey =>
        if hasKey then (Resolved tt, [HasSelectedApiKey])
        else match openSelectKey with
             | Rejected e => (Rejected e, [HasSelectedApiKey; OpenSelectKey])
             | Resolved _ => (Resolved tt, [HasSelectedApiKey; OpenSelectKey])
             end
    end
  else (Resolved tt, []).

(** [`${uri}&key=${process.env.API_KEY}`]: an undefined key prints as
    "undefined". *)
Definition fetchUrl (uri : jsstring) : jsstring :=
  uri ++ lit "&key=" ++ match API_KEY with Some k => k | None => lit "undefined" end.

Definition handleGenerate (fuel : nat) (s : VideoState) : Outcome :=
  match topic s with
  | [] => Settled s []
  | _ :: _ =>
      let s := mkVideo (topic s) (videoUrl s) true CHECKING None in
      match checkKey with
      | (Rejected e, log) => Settled (failed e s) log
      | (Resolved _, log) =>
          let s := setStatusMsg DREAMING s in
          match generateEducationalVideo generateVideos getVideosOperation fuel
                  (topic s ++ CONTEXT_LEAD ++ firstn 300 contextText) [] with
          | (Rejected e, veo) => Settled (failed e s) (log ++ List.map Veo veo)
          | (Resolved None, veo) => Waiting s (log ++ List.map Veo veo)
          | (Resolved (Some uri), veo) =>
              let s := setStatusMsg RENDERING s in
              let log := log ++ List.map Veo veo ++ [Fetch (fetchUrl uri)] in
              match fetchBlob (fetchUrl uri) with
              | Rejected e => Settled (failed e s) log
              | Resolved blob =>
                  Settled (mkVideo (topic s) (Some (createObjectURL blob)) false [] None)
                          (log ++ [CreateObjectURL blob])
              end
          end
      end
  end.

End Component.

End VideoGenerator.

(* ================================================================== *)
(** * Part II: theorems *)
(* ================================================================== *)

(** ** Strings *)

Section TrimFacts.

Lemma trimStart_nil_iff (s : jsstring) :
  trimStart s = [] <-> forallb isWhiteSpace s = true.
Proof.
  induction s as [|c r IH]; simpl.
  - tauto.
  - destruct (isWhiteSpace c); simpl.
    + exact IH.
    + split; discriminate.
Qed.

Lemma forallb_rev_white (s : jsstring) :
  forallb isWhiteSpace (rev s) = forallb isWhiteSpace s.
Proof.
  induction s as [|c r IH]; simpl; [reflexivity|].
  rewrite forallb_app, IH; simpl.
  rewrite andb_true_r. apply andb_comm.
Qed.

Lemma trimStart_keeps_nonwhite (s : jsstring) :
  forallb isWhiteSpace s = false -> forallb isWhiteSpace (trimStart s) = false.
Proof.
  induction s as [|c r IH]; simpl; [discriminate|].
  destruct (isWhiteSpace c) eqn:Hc; simpl; [exact IH|].
  intros _. now rewrite Hc.
Qed.

(** [s.trim()] is empty exactly when [s] has only white space. *)
Lemma trim_nil_iff (s : jsstring) :
  trim s = [] <-> forallb isWhiteSpace s = true.
Proof.
  unfold trim, trimEnd. split.
  - intros H.
    destruct (forallb isWhiteSpace s) eqn:Hs; [reflexivity|exfalso].
    apply trimStart_keeps_nonwhite in Hs.
    rewrite <- forallb_rev_white in Hs.
    apply trimStart_keeps_nonwhite in Hs.
    apply (f_equal (@rev N)) in H. rewrite rev_involutive in H. simpl in H.
    rewrite H in Hs. discriminate.
  - intros H. apply trimStart_nil_iff in H. rewrite H. reflexivity.
Qed.

Lemma trim_length_pos (s : jsstring) :
  (0 <? List.length (trim s))%nat = negb (forallb isWhiteSpace s).
Proof.
  destruct (forallb isWhiteSpace s) eqn:Hs; simpl.
  - apply trim_nil_iff in Hs. now rewrite Hs.
  - destruct (trim s) eqn:Ht; [|reflexivity].
    apply trim_nil_iff in Ht. congruence.
Qed.

End TrimFacts.

(** ** The prompt *)

Section PromptFacts.

Import GeminiService Directives.

(** The custom instruction only ever adds a suffix to the prompt of the
    settings. *)
Lemma promptText_split (ci : option jsstring) (settings : option AppSettings) :
  promptText ci settings = promptText None settings ++ userInstructions ci.
Proof.
  unfold promptText, userInstructions.
  destruct ci as [s|]; [|now rewrite app_nil_r].
  rewrite trim_length_pos.
  destruct s as [|c r]; [simpl; now rewrite app_nil_r|].
  cbn [truthy andb].
  destruct (forallb isWhiteSpace (c :: r)); cbn [negb];
    [now rewrite app_nil_r | reflexivity].
Qed.

(** Scanning the prompt of the settings, followed by any text [rest]: the
    directives of the settings, then whatever [rest] holds. *)
Lemma directivesIn_settings (st : AppSettings) (rest : jsstring) :
  directivesIn (promptText None (Some st) ++ USER_PREFIX ++ rest)
  = DepthDirective (depth st)
      :: match language st with hinglish => [LanguageDirective] | english => [] end
      ++ FocusDirective (focus st) :: directivesIn rest.
Proof.
  destruct st as [[] [] []]; vm_compute; reflexivity.
Qed.

End PromptFacts.

Section PromptClaims.

Import GeminiService Directives.

Lemma forallb_white_Forall (s : jsstring) :
  forallb isWhiteSpace s = true <-> Forall (fun c => isWhiteSpace c = true) s.
Proof.
  rewrite forallb_forall, Forall_forall. reflexivity.
Qed.

Lemma forallb_white_Exists (s : jsstring) :
  Exists (fun c => isWhiteSpace c = false) s -> forallb isWhiteSpace s = false.
Proof.
  induction 1 as [c r Hc | c r _ IH]; simpl.
  - now rewrite Hc.
  - rewrite IH. apply andb_false_r.
Qed.

(** No directive text starts with a unit other than the line feed. *)
Lemma directiveAt_needs_LF (c : N) (r : jsstring) :
  c <> 10%N -> directiveAt (c :: r) = None.
Proof.
  intros Hc.
  assert (H : forall m, startsWith (LF ++ m) (c :: r) = false).
  { intros m. change (LF ++ m) with (10%N :: m). cbn [startsWith].
    replace (N.eqb 10 c) with false; [reflexivity|].
    symmetry. apply N.eqb_neq. congruence. }
  unfold directiveAt, DEPTH_CONCISE, DEPTH_DETAILED, LANGUAGE_HINGLISH,
    FOCUS_EXAM, FOCUS_CONCEPT.
  now rewrite !H.
Qed.

Lemma directivesIn_one_line (s : jsstring) :
  ~ In 10%N s -> directivesIn (s ++ DQUOTE ++ lit ".") = [].
Proof.
  induction s as [|c r IH]; intros Hs.
  - vm_compute. reflexivity.
  - change ((c :: r) ++ DQUOTE ++ lit ".") with (c :: (r ++ DQUOTE ++ lit ".")).
    cbn [directivesIn].
    rewrite directiveAt_needs_LF by (intros ->; apply Hs; now left).
    apply IH. intros Hin. apply Hs. now right.
Qed.

Lemma directivesIn_quoted_line (s : jsstring) :
  ~ In 10%N s -> directivesIn (DQUOTE ++ s ++ DQUOTE ++ lit ".") = [].
Proof.
  intros Hs.
  change (DQUOTE ++ s ++ DQUOTE ++ lit ".")
    with (34%N :: (s ++ DQUOTE ++ lit ".")).
  cbn [directivesIn].
  rewrite directiveAt_needs_LF by discriminate.
  now apply directivesIn_one_line.
Qed.

Lemma directivesIn_user_prefix (rest : jsstring) :
  directivesIn (USER_PREFIX ++ rest) = directivesIn rest.
Proof. vm_compute. reflexivity. Qed.

(** C3, as stated, fails: the custom instruction is appended verbatim and
    the textarea takes line breaks, so an instruction that ends with the
    text of the concise directive makes the prompt of the settings detailed,
    english, concept hold two depth directives, the second one after the
    focus directive. *)
Lemma C3_quoted_directive_counterexample :
  directivesIn (promptText (Some (lit "please" ++ DEPTH_CONCISE))
                           (Some (mkAppSettings detailed english concept)))
  = [DepthDirective detailed; FocusDirective concept; DepthDirective concise]
  /\ ~ (forall (st : AppSettings) (ci : option jsstring),
          directivesIn (promptText ci (Some st))
          = [DepthDirective (depth st)]
              ++ match language st with hinglish => [LanguageDirective] | english => [] end
              ++ [FocusDirective (focus st)]).
Proof.
  assert (Hscan :
    directivesIn (promptText (Some (lit "please" ++ DEPTH_CONCISE))
                             (Some (mkAppSettings detailed english concept)))
    = [DepthDirective detailed; FocusDirective concept; DepthDirective concise])
    by (vm_compute; reflexivity).
  split; [exact Hscan|].
  intros Hclaim.
  specialize (Hclaim (mkAppSettings detailed english concept)
                     (Some (lit "please" ++ DEPTH_CONCISE))).
  rewrite Hscan in Hclaim. discriminate Hclaim.
Qed.

(** C3, amended.  For every combination of the settings, the assembler
    writes exactly one depth directive (the one of the chosen depth), then
    the language directive if and only if the language is hinglish, then
    exactly one focus directive (the one of the chosen focus), in this
    order: these are all the directive texts of the prompt when there is no
    custom instruction, or one without a line break.  A custom instruction
    is appended verbatim after them, so with any custom instruction the
    directive texts of the prompt are these, in this order, followed by
    those that occur inside the user's own quoted text. *)
Theorem C3_prompt_directives (st : AppSettings) (ci : option jsstring) :
  let settingsDirectives :=
    [DepthDirective (depth st)]
      ++ match language st with hinglish => [LanguageDirective] | english => [] end
      ++ [FocusDirective (focus st)] in
  directivesIn (promptText None (Some st)) = settingsDirectives
  /\ directivesIn (promptText ci (Some st))
     = settingsDirectives ++ directivesIn (userInstructions ci)
  /\ (forall s, ci = Some s -> ~ In 10%N s ->
      directivesIn (promptText ci (Some st)) = settingsDirectives).
Proof.
  cbv zeta.
  assert (Hall : forall c,
    directivesIn (promptText c (Some st))
    = ([DepthDirective (depth st)]
        ++ match language st with hinglish => [LanguageDirective] | english => [] end
        ++ [FocusDirective (focus st)]) ++ directivesIn (userInstructions c)).
  { intros c. rewrite promptText_split.
    unfold userInstructions.
    destruct c as [s|].
    - destruct (forallb isWhiteSpace s).
      + destruct st as [[] [] []]; vm_compute; reflexivity.
      + rewrite directivesIn_settings, directivesIn_user_prefix.
        destruct (language st); reflexivity.
    - destruct st as [[] [] []]; vm_compute; reflexivity. }
  split; [|split].
  - rewrite (Hall None). simpl. now rewrite app_nil_r.
  - rewrite <- app_assoc. rewrite (Hall ci), <- app_assoc. reflexivity.
  - intros s -> Hs. rewrite (Hall (Some s)).
    unfold userInstructions.
    destruct (forallb isWhiteSpace s).
    + simpl. now rewrite app_nil_r.
    + rewrite directivesIn_user_prefix, directivesIn_quoted_line by exact Hs.
      now rewrite app_nil_r.
Qed.

Lemma C3_prompt_directives_witness :
  directivesIn (promptText (Some (lit "Explain like a story"))
                           (Some (mkAppSettings concise hinglish exam)))
  = [DepthDirective concise; LanguageDirective; FocusDirective exam].
Proof.
  refine (proj2 (proj2 (C3_prompt_directives
                          (mkAppSettings concise hinglish exam)
                          (Some (lit "Explain like a story"))))
                (lit "Explain like a story") eq_refl _).
  vm_compute. intuition discriminate.
Defined.

(** C9.  A custom instruction that is undefined, empty or made of white
    space only gives the very prompt of no custom instruction; one with a
    unit that is not white space is appended as it is (not trimmed),
    between double quotes, after "USER SPECIFIC INSTRUCTIONS: " and before
    a full stop. *)
Theorem C9_custom_instruction (ci : option jsstring) (settings : option AppSettings) :
  ((ci = None \/ ci = Some []
    \/ exists s, ci = Some s /\ Forall (fun c => isWhiteSpace c = true) s) ->
   promptText ci settings = promptText None settings)
  /\ (forall s, ci = Some s -> Exists (fun c => isWhiteSpace c = false) s ->
      promptText ci settings
      = promptText None settings
          ++ LF ++ LF ++ lit "USER SPECIFIC INSTRUCTIONS: "
          ++ DQUOTE ++ s ++ DQUOTE ++ lit ".").
Proof.
  split.
  - intros H. rewrite promptText_split.
    assert (Hu : userInstructions ci = []).
    { destruct H as [-> | [-> | (s & -> & Hs)]]; try reflexivity.
      unfold userInstructions.
      apply forallb_white_Forall in Hs. now rewrite Hs. }
    rewrite Hu. apply app_nil_r.
  - intros s -> Hs. rewrite promptText_split.
    unfold userInstructions. rewrite (forallb_white_Exists Hs).
    reflexivity.
Qed.

Lemma C9_custom_instruction_witness :
  promptText (Some (lit "   ")) None = promptText None None
  /\ promptText (Some (lit " be brief ")) None
     = promptText None None
         ++ LF ++ LF ++ lit "USER SPECIFIC INSTRUCTIONS: "
         ++ DQUOTE ++ lit " be brief " ++ DQUOTE ++ lit ".".
Proof.
  split.
  - apply (proj1 (C9_custom_instruction (Some (lit "   ")) None)).
    right; right. exists (lit "   "). split; [reflexivity|].
    repeat constructor.
  - apply (proj2 (C9_custom_instruction (Some (lit " be brief ")) None)
                 (lit " be brief ") eq_refl).
    apply Exists_cons_tl, Exists_cons_hd. reflexivity.
Defined.

End PromptClaims.

(** ** The two-tier generation *)

Section OrchestratorClaims.

Import GeminiService.

Variable SYSTEM_INSTRUCTION : jsstring.
Variable readAsDataURL : File -> Completion jsstring.
Variable generateContent :
  list GenerateContentRequest -> GenerateContentRequest
  -> Completion GenerateContentResponse.

Local Abbreviation generate :=
  (generateAnswersFromPdf SYSTEM_INSTRUCTION readAsDataURL generateContent).
Local Abbreviation primaryRequest := (GeminiService.primaryRequest SYSTEM_INSTRUCTION).
Local Abbreviation secondaryRequest := (GeminiService.secondaryRequest SYSTEM_INSTRUCTION).

(** The run once the file has been read. *)
Lemma generate_unfold file ci settings base64Data log :
  fileToBase64 readAsDataURL file = Resolved base64Data ->
  generate file ci settings log
  = match generateContent log (primaryRequest file ci settings base64Data) with
    | Resolved (mkResponse (Some (c :: r))) =>
        (Resolved (mkAnswerData (c :: r) (modelId PRO)),
         log ++ [primaryRequest file ci settings base64Data])
    | _ =>
        match generateContent (log ++ [primaryRequest file ci settings base64Data])
                              (secondaryRequest file ci settings base64Data) with
        | Resolved (mkResponse (Some (c :: r))) =>
            (Resolved (mkAnswerData (c :: r) (modelId FLASH)),
             (log ++ [primaryRequest file ci settings base64Data])
               ++ [secondaryRequest file ci settings base64Data])
        | _ =>
            (Rejected (mkError FALLBACK_MESSAGE),
             (log ++ [primaryRequest file ci settings base64Data])
               ++ [secondaryRequest file ci settings base64Data])
        end
    end.
Proof.
  intros Hread.
  unfold generateAnswersFromPdf, bind, await, try_catch, call, ret, throw.
  rewrite Hread.
  fold (primaryRequest file ci settings base64Data).
  fold (secondaryRequest file ci settings base64Data).
  destruct (generateContent log _) as [[[[|c r]|]]|e]; cbn;
    try reflexivity;
    destruct (generateContent (log ++ _) _) as [[[[|c' r']|]]|e']; reflexivity.
Qed.

(** C1.  When the primary call throws or gives no text, the secondary call
    is made, once: the run's outbound calls are the primary request and
    then the secondary request, nothing else.  When the secondary call
    throws or gives no text too, the run throws an error whose message is
    the fixed one, whatever the two failures were. *)
Theorem C1_fallback_once_then_fixed_message
    (file : File) (ci : option jsstring) (settings : option AppSettings)
    (base64Data : option jsstring) (log : list GenerateContentRequest) :
  fileToBase64 readAsDataURL file = Resolved base64Data ->
  emptyOrError (generateContent log (primaryRequest file ci settings base64Data)) = true ->
  snd (generate file ci settings log)
  = log ++ [primaryRequest file ci settings base64Data;
            secondaryRequest file ci settings base64Data]
  /\ (emptyOrError
        (generateContent (log ++ [primaryRequest file ci settings base64Data])
                         (secondaryRequest file ci settings base64Data)) = true ->
      fst (generate file ci settings log) = Rejected (mkError FALLBACK_MESSAGE)).
Proof.
  intros Hread Hfail.
  rewrite (generate_unfold _ _ _ _ Hread).
  destruct (generateContent log _) as [[[[|c r]|]]|e]; try discriminate Hfail;
    (split;
     [ destruct (generateContent (log ++ _) _) as [[[[|c' r']|]]|e'];
       cbn [snd]; rewrite <- app_assoc; reflexivity
     | intros Hfail2;
       destruct (generateContent (log ++ _) _) as [[[[|c' r']|]]|e'];
       try discriminate Hfail2; reflexivity ]).
Qed.

(** C2.  A primary call that gives a non-empty text makes the run return it
    tagged with the primary tier, after exactly one outbound call; a primary
    call that throws, followed by a secondary call that gives a non-empty
    text, makes the run return that text tagged with the secondary tier,
    after exactly two outbound calls. *)
Theorem C2_model_tag_and_call_count
    (file : File) (ci : option jsstring) (settings : option AppSettings)
    (base64Data : option jsstring) (log : list GenerateContentRequest) :
  fileToBase64 readAsDataURL file = Resolved base64Data ->
  (forall t,
      generateContent log (primaryRequest file ci settings base64Data)
      = Resolved (mkResponse (Some t)) ->
      t <> [] ->
      exists answer,
        generate file ci settings log
        = (Resolved answer, log ++ [primaryRequest file ci settings base64Data])
        /\ text answer = t /\ modelUsed answer = modelId PRO)
  /\ (forall e t,
      generateContent log (primaryRequest file ci settings base64Data) = Rejected e ->
      generateContent (log ++ [primaryRequest file ci settings base64Data])
                      (secondaryRequest file ci settings base64Data)
      = Resolved (mkResponse (Some t)) ->
      t <> [] ->
      exists answer,
        generate file ci settings log
        = (Resolved answer,
           log ++ [primaryRequest file ci settings base64Data;
                   secondaryRequest file ci settings base64Data])
        /\ text answer = t /\ modelUsed answer = modelId FLASH).
Proof.
  intros Hread. split.
  - intros t Hp Ht.
    exists (mkAnswerData t (modelId PRO)).
    rewrite (generate_unfold _ _ _ _ Hread), Hp.
    destruct t as [|c r]; [congruence|]. repeat split.
  - intros e t Hp Hs Ht.
    exists (mkAnswerData t (modelId FLASH)).
    rewrite (generate_unfold _ _ _ _ Hread), Hp, Hs.
    destruct t as [|c r]; [congruence|].
    rewrite <- app_assoc. repeat split.
Qed.

(** C10.  A run that returns (does not throw) returns a non-empty text, and
    a [modelUsed] that is one of the two tier identifiers. *)
Theorem C10_returned_answer_shape
    (file : File) (ci : option jsstring) (settings : option AppSettings)
    (log log' : list GenerateContentRequest) (answer : AnswerData) :
  generate file ci settings log = (Resolved answer, log') ->
  text answer <> []
  /\ (modelUsed answer = lit "gemini-3-pro-preview"
      \/ modelUsed answer = lit "gemini-2.5-flash").
Proof.
  intros Hrun.
  destruct (fileToBase64 readAsDataURL file) as [base64Data|e] eqn:Hread.
  - rewrite (generate_unfold _ _ _ _ Hread) in Hrun.
    destruct (generateContent log _) as [[[[|c r]|]]|e];
      try (destruct (generateContent (log ++ _) _) as [[[[|c' r']|]]|e']);
      inversion Hrun; subst; cbn; split;
      solve [discriminate | now left | now right].
  - unfold generateAnswersFromPdf, bind, await in Hrun.
    rewrite Hread in Hrun. discriminate.
Qed.

End OrchestratorClaims.

(** Runs of the scenarios: both tiers down, and the primary tier down. *)
Section OrchestratorRuns.

Import GeminiService Scenario.

Lemma C1_fallback_once_then_fixed_message_witness :
  List.length (snd (generateAnswersFromPdf [] reader bothDown bank None None [])) = 2%nat
  /\ fst (generateAnswersFromPdf [] reader bothDown bank None None [])
     = Rejected (mkError FALLBACK_MESSAGE).
Proof.
  destruct (@C1_fallback_once_then_fixed_message [] reader bothDown bank None None
              (Some (lit "JVBERi0xLjQ=")) [] eq_refl eq_refl) as [Hlog Hres].
  split.
  - rewrite Hlog. reflexivity.
  - apply Hres. reflexivity.
Defined.

Lemma C2_model_tag_and_call_count_witness :
  exists answer,
    generateAnswersFromPdf [] reader primaryDown bank None None []
    = (Resolved answer,
       [primaryRequest [] bank None None (Some (lit "JVBERi0xLjQ="));
        secondaryRequest [] bank None None (Some (lit "JVBERi0xLjQ="))])
    /\ text answer = lit "# Study Plan"
    /\ modelUsed answer = modelId FLASH.
Proof.
  apply (proj2 (@C2_model_tag_and_call_count [] reader primaryDown bank None None
                  (Some (lit "JVBERi0xLjQ=")) [] eq_refl)
               (mkError (lit "503 Service Unavailable")) (lit "# Study Plan")
               eq_refl eq_refl).
  discriminate.
Defined.

Lemma C10_returned_answer_shape_witness :
  text (mkAnswerData (lit "# Study Plan") (modelId FLASH)) <> []
  /\ (modelUsed (mkAnswerData (lit "# Study Plan") (modelId FLASH))
      = lit "gemini-3-pro-preview"
      \/ modelUsed (mkAnswerData (lit "# Study Plan") (modelId FLASH))
         = lit "gemini-2.5-flash").
Proof.
  apply (@C10_returned_answer_shape [] reader primaryDown bank None None []
           [primaryRequest [] bank None None (Some (lit "JVBERi0xLjQ="));
            secondaryRequest [] bank None None (Some (lit "JVBERi0xLjQ="))]).
  reflexivity.
Defined.

End OrchestratorRuns.

(** ** Upload validation *)

Section UploadClaims.

Import UploadArea.

Lemma eqb_true_iff (a b : jsstring) : Js.eqb a b = true <-> a = b.
Proof.
  unfold Js.eqb. destruct (list_eq_dec N.eq_dec a b); split; congruence.
Qed.

(** C4.  A file whose type is not application/pdf is rejected with the type
    error, whatever its size; a PDF of exactly 20*1024*1024 bytes is handed
    to [onFileSelect] with no error; a PDF of one byte more is rejected with
    the size error and [onFileSelect] is not called. *)
Theorem C4_upload_validation (f : File) :
  (type f <> PDF_MIME ->
   validateAndSetFile f = mkValidation (Some TYPE_ERROR) [])
  /\ (type f = PDF_MIME -> size f = (20 * 1024 * 1024)%N ->
      validateAndSetFile f = mkValidation None [f])
  /\ (type f = PDF_MIME -> size f = (20 * 1024 * 1024 + 1)%N ->
      validateAndSetFile f = mkValidation (Some SIZE_ERROR) []).
Proof.
  unfold validateAndSetFile.
  split; [|split].
  - intros Hty.
    destruct (Js.eqb (type f) PDF_MIME) eqn:E; [|reflexivity].
    apply eqb_true_iff in E. contradiction.
  - intros Hty Hsz.
    apply eqb_true_iff in Hty. rewrite Hty, Hsz. reflexivity.
  - intros Hty Hsz.
    apply eqb_true_iff in Hty. rewrite Hty, Hsz. reflexivity.
Qed.

Lemma C4_upload_validation_witness :
  validateAndSetFile (mkFile (lit "notes.txt") (lit "text/plain") 5)
  = mkValidation (Some TYPE_ERROR) []
  /\ validateAndSetFile (mkFile (lit "bank.pdf") PDF_MIME 20971520)
     = mkValidation None [mkFile (lit "bank.pdf") PDF_MIME 20971520]
  /\ validateAndSetFile (mkFile (lit "bank.pdf") PDF_MIME 20971521)
     = mkValidation (Some SIZE_ERROR) [].
Proof.
  split; [|split].
  - apply (proj1 (C4_upload_validation (mkFile (lit "notes.txt") (lit "text/plain") 5))).
    vm_compute. discriminate.
  - apply (proj1 (proj2 (C4_upload_validation (mkFile (lit "bank.pdf") PDF_MIME 20971520))));
      reflexivity.
  - apply (proj2 (proj2 (C4_upload_validation (mkFile (lit "bank.pdf") PDF_MIME 20971521))));
      reflexivity.
Defined.

End UploadClaims.

(** ** PCM decoding *)

Section DecodeFacts.

Import AudioPlayer.

Lemma store_length {A} (i : nat) (v : A) (a : list A) :
  List.length (store i v a) = List.length a.
Proof.
  revert i. induction a as [|x r IH]; intros [|i]; simpl; auto.
Qed.

Lemma store_app {A} (a b : list A) (i : nat) (v : A) :
  store (List.length a + i) v (a ++ b) = a ++ store i v b.
Proof.
  induction a as [|x r IH]; simpl.
  - reflexivity.
  - now rewrite IH.
Qed.

Lemma store_boundary {A} (a b : list A) (n : nat) (v : A) :
  List.length a = n -> store n v (a ++ b) = a ++ store 0 v b.
Proof.
  intros <-. rewrite <- (Nat.add_0_r (List.length a)). apply store_app.
Qed.

Lemma store_head_skipn {A} (n : nat) (v : A) (a : list A) :
  (n < List.length a)%nat ->
  store 0 v (skipn n a) = v :: skipn (S n) a.
Proof.
  revert n. induction a as [|x r IH]; intros n Hn; simpl in Hn; [lia|].
  destruct n as [|n]; [reflexivity|].
  apply IH. lia.
Qed.

Lemma firstn_snoc_nth {A} (n : nat) (d : A) (a : list A) :
  (n < List.length a)%nat ->
  firstn (S n) a = firstn n a ++ [nth n a d].
Proof.
  revert n. induction a as [|x r IH]; intros n Hn; simpl in Hn; [lia|].
  destruct n as [|n]; [reflexivity|].
  change (firstn (S (S n)) (x :: r)) with (x :: firstn (S n) r).
  rewrite IH by lia. reflexivity.
Qed.

(** After [n] rounds of the loop the first [n] samples are written and the
    rest of the channel is untouched. *)
Lemma fillChannel_prefix (dataInt16 : list Z) (channel : list Q) (n : nat) :
  List.length channel = List.length dataInt16 ->
  (n <= List.length dataInt16)%nat ->
  fillChannel dataInt16 n channel
  = List.map sample (firstn n dataInt16) ++ skipn n channel.
Proof.
  intros Hlen. unfold fillChannel.
  induction n as [|n IH]; intros Hn.
  - reflexivity.
  - rewrite seq_S, fold_left_app. cbn [fold_left Nat.add].
    rewrite IH by lia.
    assert (Hk : List.length (List.map sample (firstn n dataInt16)) = n)
      by (rewrite length_map, firstn_length_le; lia).
    rewrite (@store_boundary _ _ _ n _ Hk), store_head_skipn by lia.
    rewrite (@firstn_snoc_nth _ n 0%Z) by lia.
    rewrite map_app, <- app_assoc. reflexivity.
Qed.

Lemma fillChannel_all (dataInt16 : list Z) :
  fillChannel dataInt16 (List.length dataInt16)
              (repeat 0%Q (List.length dataInt16))
  = List.map sample dataInt16.
Proof.
  rewrite fillChannel_prefix by (rewrite ?repeat_length; lia).
  rewrite firstn_all, skipn_all2 by (rewrite repeat_length; lia).
  apply app_nil_r.
Qed.

(** Induction over a byte buffer, two bytes at a time. *)
Lemma byte_pairs_ind (P : list N -> Prop) :
  P [] -> (forall b, P [b]) ->
  (forall b0 b1 rest, P rest -> P (b0 :: b1 :: rest)) ->
  forall bytes, P bytes.
Proof.
  intros H0 H1 H2.
  fix IH 1.
  intros [|b0 [|b1 rest]]; [exact H0 | apply H1 | apply H2, IH].
Qed.

Lemma int16_elements_length (bigEndian : bool) (bytes : list N) :
  Nat.even (List.length bytes) = true ->
  (2 * List.length (int16_elements bigEndian bytes) = List.length bytes)%nat.
Proof.
  induction bytes as [| b | b0 b1 rest IH] using byte_pairs_ind.
  - reflexivity.
  - discriminate.
  - intros Hev. cbn [int16_elements List.length].
    change (Nat.even (List.length (b0 :: b1 :: rest)))
      with (Nat.even (List.length rest)) in Hev.
    specialize (IH Hev). lia.
Qed.

Lemma int16_of_bytes_range (bigEndian : bool) (b0 b1 : N) :
  (b0 < 256)%N -> (b1 < 256)%N ->
  (-32768 <= int16_of_bytes bigEndian b0 b1 <= 32767)%Z.
Proof.
  intros H0 H1. unfold int16_of_bytes.
  destruct bigEndian;
    match goal with |- context [(?u <? 32768)%Z] =>
      destruct (Z.ltb_spec u 32768) end; lia.
Qed.

Lemma int16_elements_range (bigEndian : bool) (bytes : list N) :
  Forall (fun b => (b < 256)%N) bytes ->
  Forall (fun v => (-32768 <= v <= 32767)%Z) (int16_elements bigEndian bytes).
Proof.
  induction bytes as [| b | b0 b1 rest IH] using byte_pairs_ind; intros Hb.
  - constructor.
  - constructor.
  - inversion Hb as [|? ? Hb0 Hb']; subst.
    inversion Hb' as [|? ? Hb1 Hrest]; subst.
    cbn [int16_elements]. constructor; [now apply int16_of_bytes_range | auto].
Qed.

Lemma decodeBase64_bytes_range (binaryString : jsstring) :
  Forall (fun b => (b < 256)%N) (decodeBase64_bytes binaryString).
Proof.
  unfold decodeBase64_bytes. apply Forall_map, Forall_forall.
  intros c _. apply N.mod_lt. discriminate.
Qed.

Lemma sample_range (v : Z) :
  (-32768 <= v <= 32767)%Z -> (-1 # 1 <= sample v)%Q /\ (sample v <= 1)%Q.
Proof.
  intros Hv. unfold sample, Qle. simpl. lia.
Qed.

End DecodeFacts.

Section DecodeClaims.

Import AudioPlayer.

(** The samples of a buffer of an even, positive number of bytes. *)
Lemma decodePcm_even (bigEndian : bool) (audioData : list N) :
  Nat.even (List.length audioData) = true ->
  audioData <> [] ->
  decodePcm bigEndian audioData
  = Resolved (mkAudioBuffer 1 24000
                (List.map sample (int16_elements bigEndian audioData))).
Proof.
  intros Hev Hne. unfold decodePcm, Int16Array. rewrite Hev.
  rewrite Nat.div_1_r. unfold createBuffer.
  pose proof (int16_elements_length bigEndian audioData Hev) as Hlen.
  destruct (List.length (int16_elements bigEndian audioData)) as [|n] eqn:Hn.
  - destruct audioData; [now elim Hne | cbn in Hlen; lia].
  - cbn [Nat.eqb orb channelData numberOfChannels sampleRate].
    rewrite <- Hn, fillChannel_all. reflexivity.
Qed.

(** No bytes, no frames: [createBuffer] refuses. *)
Lemma decodePcm_empty (bigEndian : bool) :
  decodePcm bigEndian [] = Rejected (mkError NOT_SUPPORTED_ERROR).
Proof. reflexivity. Qed.




End DecodeClaims.

(** ** Replaying the decoded audio *)

Section PlayerClaims.

Import AudioPlayer.

Variable text : jsstring.
Variable bigEndian : bool.
Variable synthesize : list jsstring -> jsstring -> Completion (option jsstring).
Variable atob : jsstring -> Completion jsstring.
Variable suspended : list PlayerEvent -> bool.

Local Abbreviation click := (handleGenerateAndPlay text bigEndian synthesize atob suspended).
Local Abbreviation act := (AudioPlayer.act text bigEndian synthesize atob suspended).
Local Abbreviation run := (AudioPlayer.run text bigEndian synthesize atob suspended).

Lemma synthCalls_app (a b : list PlayerEvent) :
  synthCalls (a ++ b) = (synthCalls a + synthCalls b)%nat.
Proof.
  unfold synthCalls. now rewrite filter_app, length_app.
Qed.

Ltac player_cases :=
  repeat match goal with
         | |- context [if ?b then _ else _] => destruct b eqn:?
         | |- context [match ?x with _ => _ end] => destruct x eqn:?
         end.

(** Playing and stopping leave the decoded audio and the context alone. *)
Lemma playBuffer_keeps (buffer : AudioBuffer) (s : PlayerState)
    (log : list PlayerEvent) :
  hasAudio (fst (playBuffer suspended buffer (s, log))) = hasAudio s
  /\ audioContextRef (fst (playBuffer suspended buffer (s, log))) = audioContextRef s
  /\ audioBufferRef (fst (playBuffer suspended buffer (s, log))) = audioBufferRef s.
Proof.
  unfold playBuffer. destruct (negb (audioContextRef s)); cbn; auto.
Qed.

Lemma stopAudio_keeps (s : PlayerState) (log : list PlayerEvent) :
  hasAudio (fst (stopAudio (s, log))) = hasAudio s
  /\ audioContextRef (fst (stopAudio (s, log))) = audioContextRef s
  /\ audioBufferRef (fst (stopAudio (s, log))) = audioBufferRef s.
Proof.
  unfold stopAudio. destruct (sourceRef s); cbn; auto.
Qed.

Lemma decoded_inv_act (st : PlayerState * list PlayerEvent) (a : Action) :
  decoded_inv st -> decoded_inv (act st a).
Proof.
  destruct st as [s log]. unfold decoded_inv. cbn [fst].
  intros Hinv.
  destruct a; cbn [AudioPlayer.act].
  - unfold handleGenerateAndPlay.
    generalize (Synthesize (GeminiService.SUMMARY_PREFIX ++ firstn 4000 text)).
    intros request.
    destruct (isPlaying s).
    { destruct (stopAudio_keeps s log) as (-> & -> & ->). exact Hinv. }
    destruct (hasAudio s) eqn:Hh.
    { destruct (Hinv eq_refl) as [Hc [b Hb]]. rewrite Hb.
      destruct (playBuffer_keeps b s log) as (-> & -> & ->).
      intros _. split; [exact Hc | now exists b]. }
    destruct (GeminiService.generateAudioGuide synthesize text (requestsOf log))
      as [[base64Audio | e] log0].
    2: { unfold setLoaded. cbn [fst hasAudio]. rewrite ?Hh. discriminate. }
    destruct (decodeBase64 atob base64Audio) as [audioData | e].
    2: { unfold setLoaded. cbn [fst hasAudio]. rewrite ?Hh. discriminate. }
    destruct (decodePcm bigEndian audioData) as [buffer | e].
    2: { cbn [fst hasAudio]. rewrite ?Hh. discriminate. }
    match goal with
    | |- context [playBuffer suspended buffer (?s0, ?l0)] =>
        pose proof (playBuffer_keeps buffer s0 l0) as (Ha & Hc & Hb);
        destruct (playBuffer suspended buffer (s0, l0)) as [s' log']
    end.
    cbn [fst hasAudio audioContextRef audioBufferRef] in *.
    unfold setLoaded. cbn [fst hasAudio audioContextRef audioBufferRef].
    intros _. rewrite Hc, Hb. split; [reflexivity | now exists buffer].
  - unfold onended. cbn. auto.
Qed.

Lemma decoded_inv_run (actions : list Action) (st : PlayerState * list PlayerEvent) :
  decoded_inv st -> decoded_inv (run actions st).
Proof.
  revert st. unfold AudioPlayer.run.
  induction actions as [|a rest IH]; intros st Hinv; cbn [fold_left].
  - exact Hinv.
  - apply IH, decoded_inv_act, Hinv.
Qed.

(** With a decoded buffer stored, nothing that happens to the component
    reaches the synthesis endpoint, and the buffer stays. *)
Lemma decoded_act_quiet (s : PlayerState) (log : list PlayerEvent)
    (buffer : AudioBuffer) (a : Action) :
  hasAudio s = true -> audioBufferRef s = Some buffer ->
  hasAudio (fst (act (s, log) a)) = true
  /\ audioBufferRef (fst (act (s, log) a)) = Some buffer
  /\ synthCalls (snd (act (s, log) a)) = synthCalls log.
Proof.
  intros Hh Hb.
  destruct a; cbn [AudioPlayer.act].
  - unfold handleGenerateAndPlay, stopAudio, playBuffer.
    rewrite Hh, Hb.
    player_cases; cbn [fst snd hasAudio audioBufferRef];
      rewrite ?synthCalls_app; cbn; repeat split; auto; lia.
  - unfold onended. cbn. auto.
Qed.

Lemma decoded_run_quiet (actions : list Action) (s : PlayerState)
    (log : list PlayerEvent) (buffer : AudioBuffer) :
  hasAudio s = true -> audioBufferRef s = Some buffer ->
  hasAudio (fst (run actions (s, log))) = true
  /\ audioBufferRef (fst (run actions (s, log))) = Some buffer
  /\ synthCalls (snd (run actions (s, log))) = synthCalls log.
Proof.
  revert s log. unfold AudioPlayer.run.
  induction actions as [|a rest IH]; intros s log Hh Hb; cbn [fold_left].
  - auto.
  - destruct (decoded_act_quiet s log a Hh Hb) as (Hh' & Hb' & Hc').
    destruct (act (s, log) a) as [s' log'] eqn:E. cbn [fst snd] in *.
    destruct (IH s' log' Hh' Hb') as (Hh2 & Hb2 & Hc2).
    rewrite Hc2, Hc'. auto.
Qed.

(** C6.  In every state the component reaches in which audio has been
    decoded ([hasAudio] is true; the decoded buffer is then stored), a play
    request (a click while nothing is playing) starts a source on the stored
    buffer and makes no synthesis request; and whatever happens from then
    on, the number of synthesis requests never grows again. *)
Theorem C6_replay_without_synthesis (before after : list Action) :
  let st := run before (initialPlayer, []) in
  hasAudio (fst st) = true ->
  exists buffer,
    audioBufferRef (fst st) = Some buffer
    /\ (isPlaying (fst st) = false ->
        isPlaying (fst (click st)) = true
        /\ snd (click st)
           = snd st ++ (if suspended (snd st) then [Resume] else []) ++ [Start buffer]
        /\ synthCalls (snd (click st)) = synthCalls (snd st))
    /\ synthCalls (snd (run after st)) = synthCalls (snd st).
Proof.
  cbv zeta. intros Hh.
  assert (Hinv : decoded_inv (run before (initialPlayer, []))).
  { apply decoded_inv_run. unfold decoded_inv. cbn. discriminate. }
  destruct (Hinv Hh) as (Hctx & buffer & Hb).
  destruct (run before (initialPlayer, [])) as [s log] eqn:E.
  cbn [fst snd] in *.
  exists buffer. split; [exact Hb|]. split.
  - intros Hp.
    unfold handleGenerateAndPlay, playBuffer. rewrite Hp, Hh, Hb, Hctx.
    cbn [negb].
    destruct (suspended log); cbn [fst snd isPlaying];
      rewrite ?synthCalls_app, <- ?app_assoc; cbn; repeat split; lia.
  - apply (decoded_run_quiet after s log Hh Hb).
Qed.

End PlayerClaims.

(** ** The video polling loop *)

Section PollingClaims.

Import GeminiService.

Variable generateVideos : list VeoEvent -> VeoEvent -> Completion VideoOperation.
Variable getVideosOperation : list VeoEvent -> VeoEvent -> Completion VideoOperation.

Local Abbreviation poll := (GeminiService.poll getVideosOperation).
Local Abbreviation polls := (GeminiService.polls getVideosOperation).

(** One round of the loop on an operation that is not done. *)
Lemma poll_round (fuel : nat) (op : VideoOperation) (log : list VeoEvent) :
  done op = false ->
  poll (S fuel) op log
  = match getVideosOperation (log ++ [SetTimeout 5000]) (GetVideosOperation op) with
    | Resolved op1 => poll fuel op1 (log ++ round op)
    | Rejected e => (Rejected e, log ++ round op)
    end.
Proof.
  intros Hd. cbn [GeminiService.poll]. rewrite Hd.
  unfold bind, call. unfold round. rewrite <- app_assoc.
  destruct (getVideosOperation _ _); reflexivity.
Qed.

Lemma poll_done (fuel : nat) (op : VideoOperation) (log : list VeoEvent) :
  done op = true -> poll fuel op log = (Resolved (Some op), log).
Proof.
  intros Hd. destruct fuel; cbn [GeminiService.poll]; rewrite Hd; reflexivity.
Qed.

(** The rounds of a run are sleeps and queries in turn, as many of each as
    there are rounds, on operations that are not done. *)
Lemma polls_log op log n op' log' :
  polls op log n op' log' ->
  exists ops,
    List.length ops = n
    /\ Forall (fun o => done o = false) ops
    /\ log' = log ++ flat_map round ops.
Proof.
  induction 1 as [op log | op log op1 n op' log' Hd Hq _ (ops & Hn & Hf & Hl)].
  - exists []. cbn. rewrite app_nil_r. auto.
  - exists (op :: ops). cbn [List.length flat_map]. repeat split.
    + now rewrite Hn.
    + now constructor.
    + rewrite Hl, <- app_assoc. reflexivity.
Qed.

(** The loop ends as soon as the operation in hand is done, whatever fuel is
    left. *)
Lemma polls_finish op log n op' log' :
  polls op log n op' log' -> done op' = true ->
  forall fuel, (n <= fuel)%nat -> poll fuel op log = (Resolved (Some op'), log').
Proof.
  induction 1 as [op log | op log op1 n op' log' Hd Hq _ IH]; intros Hdone fuel Hfuel.
  - now apply poll_done.
  - destruct fuel as [|fuel]; [lia|].
    rewrite poll_round by exact Hd. rewrite Hq. apply IH; [exact Hdone | lia].
Qed.

(** The loop never stops on an operation that is not done: after the rounds
    it goes on as it would from the operation then in hand. *)
Lemma polls_continue op log n op' log' :
  polls op log n op' log' ->
  forall fuel, poll (n + fuel) op log = poll fuel op' log'.
Proof.
  induction 1 as [op log | op log op1 n op' log' Hd Hq _ IH]; intros fuel.
  - reflexivity.
  - cbn [Nat.add]. rewrite poll_round by exact Hd. rewrite Hq. apply IH.
Qed.

Lemma polls_waiting op log n op' log' :
  polls op log n op' log' -> done op' = false ->
  poll n op log = (Resolved None, log').
Proof.
  intros Hp Hd.
  rewrite <- (Nat.add_0_r n), (polls_continue Hp).
  cbn [GeminiService.poll]. now rewrite Hd.
Qed.

(** Against an endpoint that never reports done, the loop makes any number
    of rounds. *)
Lemma polls_forever :
  (forall log req, exists op1,
      getVideosOperation log req = Resolved op1 /\ done op1 = false) ->
  forall op, done op = false ->
  forall n log, exists op' log', polls op log n op' log' /\ done op' = false.
Proof.
  intros Hnever op Hd n. revert op Hd.
  induction n as [|n IH]; intros op Hd log.
  - exists op, log. split; [constructor | exact Hd].
  - destruct (Hnever (log ++ [SetTimeout 5000]) (GetVideosOperation op))
      as (op1 & Hq & Hd1).
    destruct (IH op1 Hd1 (log ++ round op)) as (op' & log' & Hp & Hd').
    exists op', log'. split; [|exact Hd'].
    econstructor; eassumption.
Qed.

(** A run of the loop that returns went through rounds and holds an
    operation that is done. *)
Lemma poll_returns fuel op log op' log' :
  poll fuel op log = (Resolved (Some op'), log') ->
  done op' = true /\ exists n, (n <= fuel)%nat /\ polls op log n op' log'.
Proof.
  revert op log.
  induction fuel as [|fuel IH]; intros op log Hrun.
  - cbn [GeminiService.poll] in Hrun.
    destruct (done op) eqn:Hd; inversion Hrun; subst.
    split; [exact Hd|]. exists 0%nat. split; [lia | constructor].
  - destruct (done op) eqn:Hd.
    + rewrite poll_done in Hrun by exact Hd. inversion Hrun; subst.
      split; [exact Hd|]. exists 0%nat. split; [lia | constructor].
    + rewrite poll_round in Hrun by exact Hd.
      destruct (getVideosOperation _ _) as [op1|e] eqn:Hq; [|discriminate].
      destruct (IH _ _ Hrun) as (Hdone & n & Hn & Hp).
      split; [exact Hdone|]. exists (S n). split; [lia|].
      econstructor; eassumption.
Qed.

(** C7.  Each round of the polling loop is one sleep of 5000 ms followed by
    one query of the operation's status.  The loop ends exactly when the
    operation in hand reports done: a run of [n] rounds that reaches a done
    operation returns it, for any number [n] of rounds and with any fuel left
    over, and a run that returns holds a done operation.  There is no bound
    after which the loop gives up: while the operation in hand is not done,
    the loop is still waiting after the rounds made, and goes on.  When the
    completed operation has no media URI (undefined or empty), the function
    throws the "no URI returned" error. *)
Theorem C7_polling_loop :
  (* the rounds: sleeps of 5000 ms and queries in turn *)
  (forall op log n op' log',
      polls op log n op' log' ->
      exists ops,
        List.length ops = n
        /\ Forall (fun o => done o = false) ops
        /\ log' = log ++ flat_map (fun o => [SetTimeout 5000; GetVideosOperation o]) ops)
  (* the loop ends when the operation in hand is done *)
  /\ (forall op log n op' log',
      polls op log n op' log' -> done op' = true ->
      forall fuel, (n <= fuel)%nat -> poll fuel op log = (Resolved (Some op'), log'))
  (* and only then *)
  /\ (forall fuel op log op' log',
      poll fuel op log = (Resolved (Some op'), log') ->
      done op' = true /\ exists n, (n <= fuel)%nat /\ polls op log n op' log')
  (* it never gives up *)
  /\ (forall op log n op' log',
      polls op log n op' log' -> done op' = false ->
      poll n op log = (Resolved None, log')
      /\ forall fuel, poll (n + fuel) op log = poll fuel op' log')
  /\ ((forall log req, exists op1,
         getVideosOperation log req = Resolved op1 /\ done op1 = false) ->
      forall op, done op = false ->
      forall n log, exists op' log',
        polls op log n op' log' /\ done op' = false
        /\ poll n op log = (Resolved None, log'))
  (* no URI *)
  /\ (forall prompt op n op' log' fuel,
      generateVideos [] (GenerateVideos (VIDEO_PROMPT_PREFIX ++ prompt)) = Resolved op ->
      polls op [GenerateVideos (VIDEO_PROMPT_PREFIX ++ prompt)] n op' log' ->
      done op' = true -> (n <= fuel)%nat -> truthy (uri op') = false ->
      generateEducationalVideo generateVideos getVideosOperation fuel prompt []
      = (Rejected (mkError NO_URI_MESSAGE), log')).
Proof.
  split; [|split; [|split; [|split; [|split]]]].
  - exact polls_log.
  - exact polls_finish.
  - exact poll_returns.
  - intros op log n op' log' Hp Hd. split.
    + exact (polls_waiting Hp Hd).
    + exact (polls_continue Hp).
  - intros Hnever op Hd n log.
    destruct (@polls_forever Hnever op Hd n log) as (op' & log' & Hp & Hd').
    exists op', log'. repeat split; [exact Hp | exact Hd' |].
    exact (polls_waiting Hp Hd').
  - intros prompt op n op' log' fuel Hg Hp Hd Hn Hu.
    unfold generateEducationalVideo, bind, call.
    rewrite Hg. cbn [app].
    rewrite (polls_finish Hp Hd Hn).
    destruct (uri op') as [[|c r]|]; try discriminate Hu; reflexivity.
Qed.

End PollingClaims.

(** Runs of the scenarios: a replay after a decode, and a video whose
    operation completes at the third query without a URI. *)
Section CompanionRuns.

Import GeminiService AudioPlayer Scenario.

Lemma C6_replay_without_synthesis_witness :
  exists buffer,
    audioBufferRef
      (fst (run [] false speech atob4 (fun _ => false) [Click; Ended]
                (initialPlayer, []))) = Some buffer
    /\ channelData buffer = [(-32768 # 32768)%Q; (32767 # 32768)%Q]
    /\ synthCalls
         (snd (run [] false speech atob4 (fun _ => false) [Click; Ended; Click; Click]
                   (initialPlayer, []))) = 1%nat.
Proof.
  destruct (@C6_replay_without_synthesis [] false speech atob4 (fun _ => false)
              [Click; Ended] [Click; Click] eq_refl)
    as (buffer & Hb & _ & Hquiet).
  exists buffer. split; [exact Hb|]. split.
  - vm_compute in Hb. injection Hb as <-. reflexivity.
  - exact Hquiet.
Defined.

Lemma C7_polling_loop_witness :
  generateEducationalVideo startVideo doneAtThird 10 (lit "Newton") []
  = (Rejected (mkError NO_URI_MESSAGE),
     [GenerateVideos (VIDEO_PROMPT_PREFIX ++ lit "Newton");
      SetTimeout 5000; GetVideosOperation (mkOperation false None);
      SetTimeout 5000; GetVideosOperation (mkOperation false None);
      SetTimeout 5000; GetVideosOperation (mkOperation false None)]).
Proof.
  refine (proj2 (proj2 (proj2 (proj2 (proj2 (C7_polling_loop startVideo doneAtThird)))))
                (lit "Newton") (mkOperation false None) 3%nat (mkOperation true None)
                _ 10%nat eq_refl _ eq_refl _ eq_refl).
  - repeat (eapply polls_round; [reflexivity | reflexivity | ]).
    apply polls_here.
  - lia.
Defined.

End CompanionRuns.

(** ** The ProcessState transitions *)

Section ProcessStateClaims.

Import App Scenario.

(** While a generation is being processed no answer is shown, so the
    "Process New File" button is not there. *)
Lemma processing_hides_answer saved seen s :
  run_from saved seen s -> statusOf s = processing -> answerData s = None.
Proof.
  induction 1 as [|seen s e s' _ IH [Hen ->]]; [discriminate|].
  destruct Hen; cbn [handle]; try (cbn; auto; fail); try discriminate.
  - unfold handleGenerate_begin. destruct (file s); [reflexivity | exact IH].
  - destruct (nth_error (pending s) k); [|exact IH].
    unfold handleGenerate_settle, addToHistory.
    destruct c; [destruct stored|]; discriminate.
Qed.

(** A pending generation, and the error status, only exist after the status
    has been processing. *)
Lemma pending_after_processing saved seen s :
  run_from saved seen s ->
  (pending s <> [] -> In processing seen)
  /\ (statusOf s = error -> In processing seen).
Proof.
  induction 1 as [|seen s e s' _ [IHp IHe] [Hen ->]].
  - split; [intros H; now elim H | discriminate].
  - destruct Hen as [ | k c stored now today Hk | | | | | | | ]; cbn [handle].
    + unfold handleGenerate_begin. destruct (file s); [|contradiction].
      cbn. auto.
    + assert (Hseen : In processing seen).
      { apply IHp. destruct (pending s); [cbn in Hk; lia | discriminate]. }
      split; intros _; now right.
    + split; [intros Hp; right; now apply IHp | discriminate].
    + split; [intros Hp; right; now apply IHp | discriminate].
    + split; [intros Hp; right; now apply IHp | discriminate].
    + split; [intros Hp; right; now apply IHp | discriminate].
    + split; intros Hx; right; [now apply IHp | now apply IHe].
    + split; intros Hx; right; [now apply IHp | now apply IHe].
    + split; intros Hx; right; [now apply IHp | now apply IHe].
Qed.

(** The application mounted with one saved guide, on its History tab. *)
Lemma run_history_tab :
  run_from [savedGuide] [idle; idle] (setActiveTab historyTab (mounted [savedGuide])).
Proof.
  refine (@run_step [savedGuide] [idle] (mounted [savedGuide]) (EvTab historyTab)
            (setActiveTab historyTab (mounted [savedGuide])) _ _).
  - constructor.
  - split; [|reflexivity]. constructor. discriminate.
Defined.

Lemma step_view_guide :
  step (setActiveTab historyTab (mounted [savedGuide]))
       (EvLoadFromHistory savedGuide)
       (loadFromHistory savedGuide (setActiveTab historyTab (mounted [savedGuide]))).
Proof.
  split; [|reflexivity]. constructor; [reflexivity | now left].
Defined.

(** C8, as stated, fails: with a guide in the saved history, opening the
    History tab and pressing "View Guide" takes the status from idle to
    success; processing is never passed through. *)
Lemma C8_view_guide_counterexample :
  (run_from [savedGuide] [idle; idle] (setActiveTab historyTab (mounted [savedGuide]))
   /\ step (setActiveTab historyTab (mounted [savedGuide]))
           (EvLoadFromHistory savedGuide)
           (loadFromHistory savedGuide (setActiveTab historyTab (mounted [savedGuide])))
   /\ statusOf (setActiveTab historyTab (mounted [savedGuide])) = idle
   /\ statusOf (loadFromHistory savedGuide
                  (setActiveTab historyTab (mounted [savedGuide]))) = success)
  /\ ~ (forall saved seen s e s',
          run_from saved seen s -> step s e s' ->
          statusOf s' = statusOf s \/ spec_transition (statusOf s) (statusOf s')).
Proof.
  pose proof run_history_tab as Hrun.
  pose proof step_view_guide as Hstep.
  split.
  - repeat split; [exact Hrun | apply Hstep].
  - intros Hclaim.
    destruct (Hclaim _ _ _ _ _ Hrun Hstep) as [Heq | Htr].
    + discriminate Heq.
    + inversion Htr.
Qed.

(** C8, amended.  In every run of the application, each event changes the
    status as its handler says: "Generate" sets processing, from any status
    but processing (so also from success and from error); a generation call
    that settles sets success when it resolved and the history was written
    to local storage, and error when it rejected or when that write threw;
    "View Guide" sets success, directly, from any status; resetting sets
    idle, from any status but processing; "Try Again" sets idle from error;
    nothing else changes the status.  The status is never error before it
    has been processing. *)
Theorem C8_process_state_transitions saved seen s e s' :
  run_from saved seen s -> step s e s' ->
  code_transition e (statusOf s) (statusOf s')
  /\ (statusOf s' = error -> In processing seen).
Proof.
  intros Hrun Hstep.
  split.
  - destruct Hstep as [Hen ->].
    destruct Hen as [ Ht Hf Hs | k c stored now today Hk | | Ht Ha | Ht Hf Hs
                    | Ht Hs | | | ];
      cbn [handle].
    + unfold handleGenerate_begin. destruct (file s); [|contradiction].
      now constructor.
    + destruct (nth_error (pending s) k) eqn:Hp;
        [|apply nth_error_None in Hp; lia].
      unfold handleGenerate_settle, addToHistory.
      destruct c as [r | e]; [destruct stored as [u | e]|]; constructor.
    + constructor.
    + constructor. intros Hproc. apply Ha.
      exact (processing_hides_answer Hrun Hproc).
    + now constructor.
    + unfold statusOf in *. cbn. rewrite Hs. constructor.
    + constructor.
    + constructor.
    + constructor.
  - intros Herr.
    destruct (pending_after_processing (run_step Hrun Hstep)) as [_ He].
    destruct (He Herr) as [Heq | Hin]; [congruence | exact Hin].
Qed.

Lemma C8_process_state_transitions_witness :
  code_transition (EvLoadFromHistory savedGuide) idle success.
Proof.
  exact (proj1 (@C8_process_state_transitions [savedGuide] [idle; idle]
                  (setActiveTab historyTab (mounted [savedGuide]))
                  (EvLoadFromHistory savedGuide)
                  (loadFromHistory savedGuide
                     (setActiveTab historyTab (mounted [savedGuide])))
                  run_history_tab step_view_guide)).
Defined.

End ProcessStateClaims.


(* ================================================================== *)
(** * Part III: further properties of the code *)
(* ================================================================== *)

(** ** The upload area *)

Section UploadFacts.

Import UploadArea.

(** An acceptable file is selected, with the error cleared. *)
Lemma acceptable_is_selected (f : File) :
  UploadHandlers.acceptable f -> validateAndSetFile f = mkValidation None [f].
Proof.
  intros [Ht Hs]. unfold validateAndSetFile.
  apply eqb_true_iff in Ht. rewrite Ht. cbn [negb].
  destruct (N.ltb_spec (20 * 1024 * 1024) (size f)) as [Hlt | Hle];
    [lia | reflexivity].
Qed.

(** Only an acceptable file is selected. *)
Lemma selected_is_acceptable (f : File) :
  onFileSelect (validateAndSetFile f) <> [] -> UploadHandlers.acceptable f.
Proof.
  unfold validateAndSetFile, UploadHandlers.acceptable.
  destruct (Js.eqb (type f) PDF_MIME) eqn:Ety; cbn [negb onFileSelect];
    [|intros H; now elim H].
  apply eqb_true_iff in Ety.
  destruct (N.ltb_spec (20 * 1024 * 1024) (size f)) as [Hlt | Hle];
    cbn [onFileSelect]; [intros H; now elim H | now split].
Qed.

(** X1.  The validator on every file: a file is handed to [onFileSelect], with
    the error cleared, exactly when it is a PDF of at most 20*1024*1024
    bytes; a wrong type gets the type error even when the file is also too
    large; nothing is selected together with an error. *)
Theorem validateAndSetFile_decides (f : File) :
  (UploadHandlers.acceptable f -> validateAndSetFile f = mkValidation None [f])
  /\ (type f <> PDF_MIME ->
      validateAndSetFile f = mkValidation (Some TYPE_ERROR) [])
  /\ (type f = PDF_MIME -> (20 * 1024 * 1024 < size f)%N ->
      validateAndSetFile f = mkValidation (Some SIZE_ERROR) [])
  /\ (onFileSelect (validateAndSetFile f) <> [] -> UploadHandlers.acceptable f).
Proof.
  unfold validateAndSetFile, UploadHandlers.acceptable.
  destruct (Js.eqb (type f) PDF_MIME) eqn:Ety; cbn [negb].
  - apply eqb_true_iff in Ety.
    destruct (N.ltb_spec (20 * 1024 * 1024) (size f)) as [Hlt | Hle];
      (split; [|split; [|split]]); cbn [onFileSelect].
    + intros [_ Hs]. lia.
    + intros Hne. contradiction.
    + reflexivity.
    + intros H. now elim H.
    + reflexivity.
    + intros Hne. contradiction.
    + intros _ Hlt. lia.
    + intros _. now split.
  - assert (Hne : type f <> PDF_MIME).
    { intros E. apply eqb_true_iff in E. congruence. }
    (split; [|split; [|split]]); cbn [onFileSelect].
    + intros [Ht _]. contradiction.
    + reflexivity.
    + intros Ht. contradiction.
    + intros H. now elim H.
Qed.

Lemma validateAndSetFile_decides_witness :
  validateAndSetFile (mkFile (lit "big.txt") (lit "text/plain") 99999999)
  = mkValidation (Some TYPE_ERROR) [].
Proof.
  apply (proj1 (proj2 (validateAndSetFile_decides
                         (mkFile (lit "big.txt") (lit "text/plain") 99999999)))).
  vm_compute. discriminate.
Defined.

End UploadFacts.

Section UploadHandlerFacts.

Import UploadHandlers.

Lemma validated_selection (f : File) (s : UploadState) :
  Forall acceptable (selected s) ->
  Forall acceptable (selected (UploadHandlers.validateAndSetFile f s)).
Proof.
  intros Hs. unfold UploadHandlers.validateAndSetFile. cbn [selected].
  apply Forall_app. split; [exact Hs|].
  destruct (UploadArea.onFileSelect (UploadArea.validateAndSetFile f)) as [|g r] eqn:E.
  - constructor.
  - assert (Hacc : acceptable f).
    { apply selected_is_acceptable.
      rewrite E. discriminate. }
    rewrite (acceptable_is_selected Hacc) in E.
    inversion E; subst. constructor; [exact Hacc | constructor].
Qed.

(** X2.  Whatever is dragged, dropped, chosen or clicked, under whatever props:
    every file the upload area hands to [onFileSelect] is a PDF of at most
    20*1024*1024 bytes. *)
Theorem upload_area_selects_only_acceptable (gs : list Gesture) :
  Forall acceptable (selected (gestures gs initialUpload)).
Proof.
  unfold gestures.
  assert (H : Forall acceptable (selected initialUpload)) by constructor.
  revert H. generalize initialUpload.
  induction gs as [|g rest IH]; intros s Hs; cbn [fold_left]; [exact Hs|].
  apply IH.
  destruct g as [props | | props files | files | props]; cbn [gesture].
  - unfold handleDragOver. now destruct (disabled props).
  - exact Hs.
  - unfold handleDrop. destruct (disabled props); [exact Hs|].
    destruct files as [|f r]; [exact Hs|].
    now apply validated_selection.
  - unfold handleInputChange. destruct files as [|f r]; [exact Hs|].
    now apply validated_selection.
  - unfold handleClick. destruct (selectedFile props); [exact Hs|].
    now destruct (disabled props).
Qed.

(** X3.  While the area is disabled, dragging over it and dropping onto it select
    nothing, keep the error shown, and never leave the drag highlight on;
    and a click does not open the file dialog. *)
Theorem upload_area_disabled_is_inert (props : Props) (files : list File)
    (s : UploadState) :
  disabled props = true ->
  handleDragOver props s = s
  /\ handleDrop props files s
     = mkUpload false (error s) (selected s) (inputClicks s)
  /\ handleClick props s = s.
Proof.
  intros Hd. unfold handleDragOver, handleDrop, handleClick. rewrite Hd.
  repeat split. now destruct (selectedFile props).
Qed.

Lemma upload_area_disabled_is_inert_witness :
  handleDrop (mkProps true None) [Scenario.bank] initialUpload
  = mkUpload false None [] 0.
Proof.
  apply (proj1 (proj2 (@upload_area_disabled_is_inert (mkProps true None)
                         [Scenario.bank] initialUpload eq_refl))).
Defined.

(** X4.  A drop or a choice of an acceptable file clears an error shown before
    and selects the file, once; only the first file of several counts. *)
Theorem upload_area_accepts_first_file (props : Props) (f : File)
    (others : list File) (s : UploadState) :
  disabled props = false -> acceptable f ->
  handleDrop props (f :: others) s
  = mkUpload false None (selected s ++ [f]) (inputClicks s)
  /\ handleInputChange (f :: others) s
     = mkUpload (isDragging s) None (selected s ++ [f]) (inputClicks s).
Proof.
  intros Hd Hacc.
  unfold handleDrop, handleInputChange, UploadHandlers.validateAndSetFile.
  rewrite Hd.
  cbn [isDragging error selected inputClicks].
  rewrite (acceptable_is_selected Hacc). split; reflexivity.
Qed.

Lemma upload_area_accepts_first_file_witness :
  selected (handleDrop (mkProps false None)
              [Scenario.bank; mkFile (lit "notes.txt") (lit "text/plain") 5]
              (mkUpload true (Some UploadArea.TYPE_ERROR) [] 0))
  = [Scenario.bank].
Proof.
  assert (Hacc : acceptable Scenario.bank)
    by (split; [reflexivity | vm_compute; discriminate]).
  rewrite (proj1 (@upload_area_accepts_first_file (mkProps false None) Scenario.bank
                    [mkFile (lit "notes.txt") (lit "text/plain") 5]
                    (mkUpload true (Some UploadArea.TYPE_ERROR) [] 0) eq_refl Hacc)).
  reflexivity.
Defined.

End UploadHandlerFacts.

(** ** Reading the file *)

Section FileReaderFacts.

Import GeminiService.

Lemma split_aux_no_sep (sep : N) (cur s : jsstring) :
  ~ In sep s -> split_aux sep cur s = [rev cur ++ s].
Proof.
  revert cur. induction s as [|c r IH]; intros cur Hs; cbn [split_aux].
  - now rewrite app_nil_r.
  - destruct (N.eqb_spec c sep) as [-> | Hne].
    + exfalso. apply Hs. now left.
    + rewrite IH by (intros Hin; apply Hs; now right).
      cbn [rev]. now rewrite <- app_assoc.
Qed.

Lemma split_aux_first_sep (sep : N) (cur h rest : jsstring) :
  ~ In sep h ->
  split_aux sep cur (h ++ sep :: rest) = (rev cur ++ h) :: split_aux sep [] rest.
Proof.
  revert cur. induction h as [|c r IH]; intros cur Hh; cbn [split_aux app].
  - rewrite N.eqb_refl. now rewrite app_nil_r.
  - destruct (N.eqb_spec c sep) as [-> | Hne].
    + exfalso. apply Hh. now left.
    + rewrite IH by (intros Hin; apply Hh; now right).
      cbn [rev]. now rewrite <- app_assoc.
Qed.

(** X5.  [fileToBase64] on what the reader gives: of a data URL, header, comma,
    payload (base64 text has no comma), it resolves with the payload alone;
    of a result with no comma it resolves with [undefined]; and the
    reader's error is passed on. *)
Theorem fileToBase64_data_url (readAsDataURL : File -> Completion jsstring)
    (file : File) :
  (forall header payload,
      readAsDataURL file = Resolved (header ++ lit "," ++ payload) ->
      ~ In 44%N header -> ~ In 44%N payload ->
      fileToBase64 readAsDataURL file = Resolved (Some payload))
  /\ (forall result,
      readAsDataURL file = Resolved result -> ~ In 44%N result ->
      fileToBase64 readAsDataURL file = Resolved None)
  /\ (forall e,
      readAsDataURL file = Rejected e ->
      fileToBase64 readAsDataURL file = Rejected e).
Proof.
  unfold fileToBase64. split; [|split].
  - intros header payload Hr Hh Hp. rewrite Hr.
    change (lit "," ++ payload) with (44%N :: payload).
    unfold split. rewrite split_aux_first_sep by exact Hh.
    rewrite split_aux_no_sep by exact Hp. reflexivity.
  - intros result Hr Hn. rewrite Hr.
    unfold split. rewrite split_aux_no_sep by exact Hn. reflexivity.
  - intros e Hr. now rewrite Hr.
Qed.

Lemma fileToBase64_data_url_witness :
  fileToBase64 Scenario.reader Scenario.bank = Resolved (Some (lit "JVBERi0xLjQ=")).
Proof.
  apply (proj1 (fileToBase64_data_url Scenario.reader Scenario.bank)
               (lit "data:application/pdf;base64") (lit "JVBERi0xLjQ=") eq_refl);
    vm_compute; intuition discriminate.
Defined.

End FileReaderFacts.

(** ** The generation run as a whole *)

Section OrchestratorFacts.

Import GeminiService.

Variable SYSTEM_INSTRUCTION : jsstring.
Variable readAsDataURL : File -> Completion jsstring.
Variable generateContent :
  list GenerateContentRequest -> GenerateContentRequest
  -> Completion GenerateContentResponse.

Local Abbreviation generate :=
  (generateAnswersFromPdf SYSTEM_INSTRUCTION readAsDataURL generateContent).
Local Abbreviation primaryRequest := (GeminiService.primaryRequest SYSTEM_INSTRUCTION).
Local Abbreviation secondaryRequest := (GeminiService.secondaryRequest SYSTEM_INSTRUCTION).

(** X6.  A file that cannot be read: the reader's own error comes out of
    [generateAnswersFromPdf] as it is, and no model is called. *)
Theorem generate_unreadable_file
    (file : File) (ci : option jsstring) (settings : option AppSettings)
    (log : list GenerateContentRequest) (e : JsError) :
  readAsDataURL file = Rejected e ->
  generate file ci settings log = (Rejected e, log).
Proof.
  intros Hr.
  unfold generateAnswersFromPdf, bind, await, fileToBase64. now rewrite Hr.
Qed.

(** X7.  Once the file is read, a run calls the primary model first and the
    secondary model at most once after it, never anything else: one or two
    requests, with the same data, MIME type, prompt and system instruction,
    the thinking budget on the primary request only.  The second request is
    made exactly when the primary call failed, and the only error such a run
    can throw is the fixed one. *)
Theorem generate_call_discipline
    (file : File) (ci : option jsstring) (settings : option AppSettings)
    (base64Data : option jsstring) (log : list GenerateContentRequest) :
  fileToBase64 readAsDataURL file = Resolved base64Data ->
  let primary := primaryRequest file ci settings base64Data in
  let secondary := secondaryRequest file ci settings base64Data in
  (emptyOrError (generateContent log primary) = false ->
   snd (generate file ci settings log) = log ++ [primary])
  /\ (emptyOrError (generateContent log primary) = true ->
      snd (generate file ci settings log) = log ++ [primary; secondary])
  /\ (forall e, fst (generate file ci settings log) = Rejected e ->
      e = mkError FALLBACK_MESSAGE)
  /\ (inlineData secondary = inlineData primary
      /\ mimeType secondary = mimeType primary
      /\ textPart secondary = textPart primary
      /\ systemInstruction secondary = systemInstruction primary
      /\ thinkingBudget primary = Some 2048%Z
      /\ thinkingBudget secondary = None).
Proof.
  intros Hread. cbv zeta.
  rewrite (@generate_unfold SYSTEM_INSTRUCTION readAsDataURL generateContent
             file ci settings base64Data log Hread).
  split; [|split; [|split]].
  - destruct (generateContent log _) as [[[[|c r]|]]|e]; cbn; try discriminate.
    reflexivity.
  - destruct (generateContent log _) as [[[[|c r]|]]|e]; cbn; try discriminate;
      intros _;
      destruct (generateContent (log ++ _) _) as [[[[|c' r']|]]|e'];
      cbn [snd]; now rewrite <- app_assoc.
  - intros e.
    destruct (generateContent log _) as [[[[|c r]|]]|e1]; cbn;
      try discriminate;
      destruct (generateContent (log ++ _) _) as [[[[|c' r']|]]|e'];
      cbn; try discriminate; congruence.
  - repeat split.
Qed.

End OrchestratorFacts.

Lemma generate_unreadable_file_witness :
  GeminiService.generateAnswersFromPdf []
    (fun _ => Rejected (mkError (lit "NotReadableError"))) Scenario.primaryDown
    Scenario.bank None None []
  = (Rejected (mkError (lit "NotReadableError")), []).
Proof.
  apply (@generate_unreadable_file [] (fun _ => Rejected (mkError (lit "NotReadableError")))
           Scenario.primaryDown Scenario.bank None None []
           (mkError (lit "NotReadableError")) eq_refl).
Defined.

Lemma generate_call_discipline_witness :
  snd (GeminiService.generateAnswersFromPdf [] Scenario.reader Scenario.primaryDown
         Scenario.bank None None [])
  = [GeminiService.primaryRequest [] Scenario.bank None None (Some (lit "JVBERi0xLjQ="));
     GeminiService.secondaryRequest [] Scenario.bank None None (Some (lit "JVBERi0xLjQ="))].
Proof.
  apply (proj1 (proj2 (@generate_call_discipline [] Scenario.reader Scenario.primaryDown
                         Scenario.bank None None (Some (lit "JVBERi0xLjQ=")) []
                         eq_refl))).
  reflexivity.
Defined.


(** ** What a prompt tells about its inputs *)

Section PromptInjectivity.

Import GeminiService Directives Compare.

(** Strings that differ at a common position stay different however they
    are continued. *)
Lemma clash_app (a b u v : jsstring) :
  clash a b = true -> a ++ u <> b ++ v.
Proof.
  revert b. induction a as [|x a IH]; intros [|y b]; cbn [clash app];
    try discriminate.
  destruct (N.eqb_spec x y) as [-> | Hne]; intros Hc Heq.
  - injection Heq as Heq. exact (IH b Hc Heq).
  - injection Heq as Hxy _. contradiction.
Qed.

Lemma userInstructions_shape (ci : option jsstring) :
  userInstructions ci = [] \/ exists x, userInstructions ci = USER_PREFIX ++ x.
Proof.
  unfold userInstructions. destruct ci as [s|]; [|now left].
  destruct (forallb isWhiteSpace s); [now left | right; eauto].
Qed.

Lemma shorter_app (a b v : jsstring) :
  shorter a b = true -> a <> b ++ v.
Proof.
  unfold shorter. intros Hs Heq.
  apply Nat.ltb_lt in Hs.
  apply (f_equal (@List.length N)) in Heq. rewrite length_app in Heq. lia.
Qed.

Lemma told_apart_spec (up a b : jsstring) :
  told_apart up a b = true ->
  a <> b
  /\ (forall x, a ++ up ++ x <> b)
  /\ (forall x, a <> b ++ up ++ x)
  /\ (forall x1 x2, a ++ up ++ x1 <> b ++ up ++ x2).
Proof.
  unfold told_apart. rewrite !andb_true_iff, !orb_true_iff.
  intros [[[H1 H2] H3] H4]. split; [|split; [|split]].
  - destruct H1 as [[H | H] | H].
    + rewrite <- (app_nil_r a), <- (app_nil_r b). now apply clash_app.
    + rewrite <- (app_nil_r b). now apply shorter_app.
    + intros E. symmetry in E. revert E.
      rewrite <- (app_nil_r a). now apply shorter_app.
  - intros x. destruct H2 as [H | H].
    + rewrite app_assoc, <- (app_nil_r b). now apply clash_app.
    + intros E. symmetry in E. revert E.
      rewrite app_assoc. now apply shorter_app.
  - intros x. destruct H3 as [H | H].
    + rewrite app_assoc, <- (app_nil_r a). now apply clash_app.
    + rewrite app_assoc. now apply shorter_app.
  - intros x1 x2. rewrite !app_assoc. now apply clash_app.
Qed.

Lemma settings_told_apart (o1 o2 : option AppSettings) :
  o1 <> o2 ->
  told_apart USER_PREFIX (promptText None o1) (promptText None o2) = true.
Proof.
  intros Hne.
  destruct o1 as [[[] [] []]|], o2 as [[[] [] []]|];
    try (exfalso; apply Hne; reflexivity); vm_compute; reflexivity.
Qed.

(** X8.  Different settings never give the same prompt, whatever the custom
    instructions are: the prompt tells whether settings were given, and
    which. *)
Theorem promptText_tells_settings (o1 o2 : option AppSettings)
    (ci1 ci2 : option jsstring) :
  o1 <> o2 -> promptText ci1 o1 <> promptText ci2 o2.
Proof.
  intros Hne. rewrite (promptText_split ci1), (promptText_split ci2).
  destruct (told_apart_spec _ _ _ (settings_told_apart Hne))
    as (H00 & H10 & H01 & H11).
  destruct (userInstructions_shape ci1) as [E1 | [x1 E1]];
    destruct (userInstructions_shape ci2) as [E2 | [x2 E2]];
    rewrite E1, E2; rewrite ?app_nil_r; auto.
Qed.

Lemma promptText_tells_settings_witness :
  promptText (Some (lit "- DEPTH: Concise."))
             (Some (mkAppSettings detailed english concept))
  <> promptText None (Some (mkAppSettings concise english concept)).
Proof.
  apply promptText_tells_settings. discriminate.
Defined.

(** X9.  Under the same settings, the prompt tells the custom instruction: two
    instructions that are not blank give the same prompt only when they are
    the same text, unit for unit, and a blank one never gives the prompt of
    one that is not blank. *)
Theorem promptText_tells_instruction (o : option AppSettings) (s1 s2 : jsstring) :
  forallb isWhiteSpace s1 = false -> s1 <> s2 ->
  promptText (Some s1) o <> promptText (Some s2) o.
Proof.
  intros H1 Hne Heq. apply Hne.
  rewrite (promptText_split (Some s1)), (promptText_split (Some s2)) in Heq.
  apply app_inv_head in Heq.
  unfold userInstructions in Heq. rewrite H1 in Heq.
  destruct (forallb isWhiteSpace s2).
  - discriminate Heq.
  - apply app_inv_head in Heq. apply app_inv_head in Heq.
    now apply app_inv_tail in Heq.
Qed.

Lemma promptText_tells_instruction_witness :
  promptText (Some (lit "be brief")) None <> promptText (Some (lit "be brief ")) None.
Proof.
  apply promptText_tells_instruction; [reflexivity | discriminate].
Defined.

End PromptInjectivity.

(** ** The speech request *)

Section SpeechFacts.

Import GeminiService.

Variable synthesize : list jsstring -> jsstring -> Completion (option jsstring).

(** X10.  [generateAudioGuide] makes one request, of the fixed lead-in and at most
    the first 4000 units of the guide; what comes after them in the guide
    has no influence.  It returns only a non-empty payload, the one the
    endpoint gave; it throws the endpoint's error, or "No audio generated"
    when the payload is undefined or empty. *)
Theorem generateAudioGuide_request_and_outcome (text : jsstring) (log : list jsstring) :
  snd (generateAudioGuide synthesize text log)
  = log ++ [SUMMARY_PREFIX ++ firstn 4000 text]
  /\ (List.length (firstn 4000 text) <= 4000)%nat
  /\ generateAudioGuide synthesize text log
     = generateAudioGuide synthesize (firstn 4000 text) log
  /\ (forall payload,
        fst (generateAudioGuide synthesize text log) = Resolved payload ->
        payload <> []
        /\ synthesize log (SUMMARY_PREFIX ++ firstn 4000 text) = Resolved (Some payload))
  /\ (forall e,
        fst (generateAudioGuide synthesize text log) = Rejected e ->
        synthesize log (SUMMARY_PREFIX ++ firstn 4000 text) = Rejected e
        \/ e = mkError NO_AUDIO_MESSAGE).
Proof.
  unfold generateAudioGuide, bind, call, ret, throw.
  rewrite firstn_firstn, Nat.min_id.
  generalize (firstn_le_length 4000 text).
  generalize (firstn 4000 text). intros excerpt Hlen.
  destruct (synthesize log (SUMMARY_PREFIX ++ excerpt)) as [[[|c r]|]|e0];
    cbn [fst snd]; repeat split; try exact Hlen;
    try (intros ? H; inversion H; subst; auto; fail);
    intros; try discriminate.
  - match goal with H : Resolved _ = Resolved _ |- _ => inversion H; subst end.
    discriminate.
  - match goal with H : Resolved _ = Resolved _ |- _ => inversion H; subst end.
    reflexivity.
Qed.

End SpeechFacts.

(** ** The video request *)

Section VideoFacts.

Import GeminiService.

Variable generateVideos : list VeoEvent -> VeoEvent -> Completion VideoOperation.
Variable getVideosOperation : list VeoEvent -> VeoEvent -> Completion VideoOperation.

Local Abbreviation poll := (GeminiService.poll getVideosOperation).

(** Whatever the endpoint answers and however a run of the loop ends, what
    it did is whole rounds: a sleep and a query each, on operations that
    were not done. *)
Lemma poll_whole_rounds (fuel : nat) (op : VideoOperation) (log : list VeoEvent) :
  exists ops,
    snd (poll fuel op log) = log ++ flat_map round ops
    /\ (List.length ops <= fuel)%nat
    /\ Forall (fun o => done o = false) ops.
Proof.
  revert op log. induction fuel as [|fuel IH]; intros op log.
  - exists []. cbn [GeminiService.poll flat_map List.length].
    rewrite app_nil_r. destruct (done op); repeat split; auto.
  - destruct (done op) eqn:Hd.
    + exists []. rewrite (@poll_done getVideosOperation (S fuel) op log Hd).
      cbn. rewrite app_nil_r. repeat split; auto. lia.
    + rewrite (@poll_round getVideosOperation fuel op log Hd).
      destruct (getVideosOperation _ _) as [op1 | e].
      * destruct (IH op1 (log ++ round op)) as (ops & Hl & Hn & Hf).
        exists (op :: ops). cbn [flat_map List.length].
        rewrite Hl, <- app_assoc. repeat split; [lia | now constructor].
      * exists [op]. cbn [flat_map snd List.length]. rewrite app_nil_r.
        repeat split; [lia | now repeat constructor].
Qed.

Lemma poll_errors (fuel : nat) (op : VideoOperation) (log : list VeoEvent) (e : JsError) :
  fst (poll fuel op log) = Rejected e ->
  exists log1 req, getVideosOperation log1 req = Rejected e.
Proof.
  revert op log. induction fuel as [|fuel IH]; intros op log.
  - cbn [GeminiService.poll]. destruct (done op); discriminate.
  - destruct (done op) eqn:Hd.
    + rewrite (@poll_done getVideosOperation (S fuel) op log Hd). discriminate.
    + rewrite (@poll_round getVideosOperation fuel op log Hd).
      destruct (getVideosOperation _ _) as [op1 | e1] eqn:Hq.
      * apply IH.
      * cbn [fst]. intros H. inversion H; subst. eauto.
Qed.

(** The only generation request of a run is the first event. *)
Lemma generateEducationalVideo_single_request (fuel : nat) (prompt p : jsstring) :
  In (GenerateVideos p)
     (snd (generateEducationalVideo generateVideos getVideosOperation fuel prompt [])) ->
  p = VIDEO_PROMPT_PREFIX ++ prompt.
Proof.
  unfold generateEducationalVideo, bind, call. cbn [app].
  assert (Hrounds : forall ops,
             In (GenerateVideos p)
                (GenerateVideos (VIDEO_PROMPT_PREFIX ++ prompt) :: flat_map round ops) ->
             p = VIDEO_PROMPT_PREFIX ++ prompt).
  { intros ops [H | H]; [now inversion H|].
    apply in_flat_map in H as (o & _ & [H | [H | []]]); discriminate H. }
  destruct (generateVideos [] _) as [op | e] eqn:Hg.
  - destruct (poll_whole_rounds fuel op [GenerateVideos (VIDEO_PROMPT_PREFIX ++ prompt)])
      as (ops & Hl & _ & _).
    destruct (poll fuel op _) as [[[op' |] | e] log'] eqn:Hp; cbn [snd] in *;
      try (destruct (uri op') as [[|c r]|]; cbn [snd]);
      rewrite Hl; apply Hrounds.
  - cbn. apply (Hrounds []).
Qed.

(** X11.  Every run of [generateEducationalVideo], however it ends: one
    generation request first, then sleeps of 5000 ms and status queries in
    turn, as many sleeps as queries, and no polling at all when the
    generation request was refused. *)
Theorem generateEducationalVideo_trace (fuel : nat) (prompt : jsstring) :
  exists ops,
    snd (generateEducationalVideo generateVideos getVideosOperation fuel prompt [])
    = GenerateVideos (VIDEO_PROMPT_PREFIX ++ prompt)
        :: flat_map (fun o => [SetTimeout 5000; GetVideosOperation o]) ops
    /\ (List.length ops <= fuel)%nat
    /\ ((exists e, generateVideos [] (GenerateVideos (VIDEO_PROMPT_PREFIX ++ prompt))
                   = Rejected e) -> ops = []).
Proof.
  unfold generateEducationalVideo, bind, call. cbn [app].
  destruct (generateVideos [] _) as [op | e] eqn:Hg.
  - destruct (poll_whole_rounds fuel op [GenerateVideos (VIDEO_PROMPT_PREFIX ++ prompt)])
      as (ops & Hl & Hn & _).
    exists ops.
    destruct (poll fuel op _) as [[[op' |] | e] log'] eqn:Hp; cbn [snd] in *.
    + destruct (uri op') as [[|c r]|]; cbn [snd]; rewrite Hl;
        (repeat split; [exact Hn | intros [e He]; discriminate He]).
    + rewrite Hl. repeat split; [exact Hn | intros [e He]; discriminate He].
    + rewrite Hl. repeat split; [exact Hn | intros [e0 He]; discriminate He].
  - exists []. cbn. repeat split. lia.
Qed.

(** X12.  What [generateEducationalVideo] gives back: a URI that is not empty, or
    one of three errors, the refusal of the generation request, the failure
    of a status query, or its own "no URI returned". *)
Theorem generateEducationalVideo_outcome (fuel : nat) (prompt : jsstring) :
  (forall u log',
      generateEducationalVideo generateVideos getVideosOperation fuel prompt []
      = (Resolved (Some u), log') -> u <> [])
  /\ (forall e,
      fst (generateEducationalVideo generateVideos getVideosOperation fuel prompt [])
      = Rejected e ->
      generateVideos [] (GenerateVideos (VIDEO_PROMPT_PREFIX ++ prompt)) = Rejected e
      \/ (exists log1 req, getVideosOperation log1 req = Rejected e)
      \/ e = mkError NO_URI_MESSAGE).
Proof.
  unfold generateEducationalVideo, bind, call. cbn [app].
  destruct (generateVideos [] _) as [op | e0] eqn:Hg.
  - destruct (poll fuel op _) as [[[op' |] | e1] log1] eqn:Hp.
    + destruct (uri op') as [[|c r]|]; cbn; split;
        try (intros ? ? H; inversion H; subst; discriminate);
        try (intros ? H; inversion H; subst; auto; fail);
        intros; discriminate.
    + cbn. split; intros; discriminate.
    + split; [intros; discriminate|].
      cbn [fst]. intros e H. inversion H; subst.
      right; left.
      apply (poll_errors fuel op [GenerateVideos (VIDEO_PROMPT_PREFIX ++ prompt)]).
      now rewrite Hp.
  - split; [intros; discriminate|].
    cbn [fst]. intros e H. inversion H; subst. now left.
Qed.

End VideoFacts.

Lemma generateAudioGuide_request_and_outcome_witness :
  fst (GeminiService.generateAudioGuide Scenario.speech (lit "Roadmap") []) <> Resolved [].
Proof.
  intros H.
  exact (proj1 (proj1 (proj2 (proj2 (proj2
           (generateAudioGuide_request_and_outcome Scenario.speech (lit "Roadmap") []))))
           [] H) eq_refl).
Defined.

Lemma generateEducationalVideo_trace_witness :
  exists ops,
    snd (GeminiService.generateEducationalVideo Scenario.startVideo Scenario.doneAtThird
           10 (lit "Newton") [])
    = GeminiService.GenerateVideos (GeminiService.VIDEO_PROMPT_PREFIX ++ lit "Newton")
        :: flat_map (fun o => [GeminiService.SetTimeout 5000;
                               GeminiService.GetVideosOperation o]) ops
    /\ (List.length ops <= 10)%nat
    /\ ((exists e, Scenario.startVideo []
                     (GeminiService.GenerateVideos
                        (GeminiService.VIDEO_PROMPT_PREFIX ++ lit "Newton"))
                   = Rejected e) -> ops = []).
Proof.
  exact (generateEducationalVideo_trace Scenario.startVideo Scenario.doneAtThird
           10 (lit "Newton")).
Defined.

Lemma generateEducationalVideo_outcome_witness :
  Scenario.startVideo []
    (GeminiService.GenerateVideos (GeminiService.VIDEO_PROMPT_PREFIX ++ lit "Newton"))
  = Rejected (mkError GeminiService.NO_URI_MESSAGE)
  \/ (exists log1 req,
        Scenario.doneAtThird log1 req = Rejected (mkError GeminiService.NO_URI_MESSAGE))
  \/ mkError GeminiService.NO_URI_MESSAGE = mkError GeminiService.NO_URI_MESSAGE.
Proof.
  apply (proj2 (generateEducationalVideo_outcome Scenario.startVideo Scenario.doneAtThird
                  10 (lit "Newton"))
               (mkError GeminiService.NO_URI_MESSAGE)).
  reflexivity.
Defined.

(** ** The audio player beyond the replay *)

Section PlayerFacts.

Import AudioPlayer.

Variable text : jsstring.
Variable bigEndian : bool.
Variable synthesize : list jsstring -> jsstring -> Completion (option jsstring).
Variable atob : jsstring -> Completion jsstring.
Variable suspended : list PlayerEvent -> bool.

Local Abbreviation click := (handleGenerateAndPlay text bigEndian synthesize atob suspended).
Local Abbreviation run := (AudioPlayer.run text bigEndian synthesize atob suspended).


Lemma synthCalls_snoc_other (log : list PlayerEvent) (ev : PlayerEvent) :
  (forall p, ev <> Synthesize p) -> synthCalls (log ++ [ev]) = synthCalls log.
Proof.
  intros Hev. rewrite synthCalls_app.
  destruct ev; cbn; try lia. exfalso. now apply (Hev summaryPrompt).
Qed.


Import PlayerInvariants.

Lemma decodePcm_wellFormed (binaryString : jsstring) (buffer : AudioBuffer) :
  decodePcm bigEndian (decodeBase64_bytes binaryString) = Resolved buffer ->
  wellFormed buffer.
Proof.
  intros Hdec.
  destruct (Nat.even (List.length (decodeBase64_bytes binaryString))) eqn:Hev.
  - destruct (decodeBase64_bytes binaryString) as [|b0 rest] eqn:Hbytes;
      [rewrite decodePcm_empty in Hdec; discriminate|].
    rewrite <- Hbytes in *.
    rewrite (decodePcm_even bigEndian Hev) in Hdec
      by (rewrite Hbytes; discriminate).
    inversion Hdec; subst. unfold wellFormed. cbn. repeat split.
    apply Forall_map.
    eapply Forall_impl; [|apply int16_elements_range, decodeBase64_bytes_range].
    intros v Hv. now apply sample_range.
  - unfold decodePcm, Int16Array in Hdec. rewrite Hev in Hdec. discriminate.
Qed.

Ltac in_log H :=
  repeat (apply in_app_or in H; destruct H as [H | H]);
  try (cbn in H; destruct H as [H | []]; try discriminate H).

(** An attempt to synthesize, made while nothing plays and nothing was ever
    started, keeps the invariant. *)
Lemma playing_inv_attempt (s : PlayerState) (log : list PlayerEvent) :
  isPlaying s = false ->
  hasAudio s = false \/ audioBufferRef s = None ->
  (forall b, ~ In (Start b) log) ->
  (forall b, audioBufferRef s = Some b -> wellFormed b) ->
  playing_inv (click (s, log)).
Proof.
  intros Hp Hnone Hno Hwf.
  unfold handleGenerateAndPlay. rewrite Hp.
  generalize (GeminiService.SUMMARY_PREFIX ++ firstn 4000 text). intros p.
  assert (Hfail : forall (e : JsError) (ctx : bool) (extra : list PlayerEvent),
             (forall b, ~ In (Start b) extra) ->
             playing_inv (mkPlayer false false (caught e) (hasAudio s) ctx
                                   (sourceRef s) (audioBufferRef s),
                          (log ++ [Synthesize p]) ++ extra)).
  { intros e ctx extra Hex. unfold playing_inv.
    cbn [fst snd isPlaying hasAudio audioBufferRef sourceRef].
    split; [discriminate|split].
    - intros b Hin. in_log Hin; [now elim (Hno b) | now elim (Hex b)].
    - exact Hwf. }
  assert (Hattempt :
    playing_inv
      (let '(base64Audio, _) :=
         GeminiService.generateAudioGuide synthesize text (requestsOf log) in
       let log := log ++ [Synthesize p] in
       match base64Audio with
       | Rejected e => (setLoaded (caught e) s, log)
       | Resolved base64Audio =>
           match decodeBase64 atob base64Audio with
           | Rejected e => (setLoaded (caught e) s, log)
           | Resolved audioData =>
               let log := if audioContextRef s then log else log ++ [NewAudioContext] in
               match decodePcm bigEndian audioData with
               | Rejected e =>
                   (mkPlayer false false (caught e) (hasAudio s) true
                             (sourceRef s) (audioBufferRef s), log)
               | Resolved buffer =>
                   let (s', log) :=
                     playBuffer suspended buffer
                       (mkPlayer false true None true true
                                 (sourceRef s) (Some buffer), log) in
                   (setLoaded None s', log)
               end
           end
       end)).
  { destruct (GeminiService.generateAudioGuide synthesize text (requestsOf log))
      as [[base64Audio | e] log0]; cbv zeta.
    2: { unfold setLoaded. rewrite ?Hp.
         rewrite <- (app_nil_r (log ++ [Synthesize p])).
         apply Hfail. intros b []. }
    destruct (decodeBase64 atob base64Audio) as [audioData | e] eqn:Hb64.
    2: { unfold setLoaded. rewrite ?Hp.
         rewrite <- (app_nil_r (log ++ [Synthesize p])).
         apply Hfail. intros b []. }
    assert (Hbytes : exists binaryString, audioData = decodeBase64_bytes binaryString).
    { unfold decodeBase64 in Hb64. destruct (atob base64Audio); inversion Hb64; eauto. }
    destruct Hbytes as [binaryString ->].
    destruct (decodePcm bigEndian (decodeBase64_bytes binaryString))
      as [buffer | e] eqn:Hpcm.
    2: { destruct (audioContextRef s).
         - rewrite <- (app_nil_r (log ++ [Synthesize p])).
           apply Hfail. intros b [].
         - apply Hfail. intros b [H | []]. discriminate H. }
    apply decodePcm_wellFormed in Hpcm.
    unfold playBuffer. cbn [audioContextRef negb].
    match goal with
    | |- context [if suspended ?l then _ else _] => destruct (suspended l)
    end;
      unfold setLoaded, playing_inv;
      cbn [fst snd hasAudio isPlaying isLoading audioBufferRef sourceRef];
      (split; [discriminate | split]);
      try (intros b Hb; inversion Hb; subst; exact Hpcm);
      intros b Hin; destruct (audioContextRef s); in_log Hin;
      try (now elim (Hno b));
      inversion Hin; subst; auto. }
  destruct (hasAudio s) eqn:Hh.
  - destruct (audioBufferRef s) as [b0|] eqn:Hb0.
    + destruct Hnone; discriminate.
    + rewrite ?Hh, ?Hb0 in Hattempt. exact Hattempt.
  - rewrite ?Hh in Hattempt. exact Hattempt.
Qed.

Lemma playing_inv_act (st : PlayerState * list PlayerEvent) (a : Action) :
  playing_inv st ->
  playing_inv (AudioPlayer.act text bigEndian synthesize atob suspended st a).
Proof.
  destruct st as [s log]. intros Hinv.
  pose proof Hinv as (Hsrc & Hstart & Hwf). cbn [fst snd] in Hsrc, Hstart, Hwf.
  destruct a; cbn [AudioPlayer.act].
  - destruct (isPlaying s) eqn:Hp.
    + unfold handleGenerateAndPlay. rewrite Hp. unfold stopAudio, playing_inv.
      destruct (sourceRef s);
        cbn [fst snd hasAudio isPlaying audioBufferRef sourceRef];
        (split; [discriminate | split; [|exact Hwf]]);
        intros b Hin; in_log Hin; auto.
    + destruct (hasAudio s) eqn:Hh; [destruct (audioBufferRef s) as [b0|] eqn:Hb0|].
      * unfold handleGenerateAndPlay. rewrite Hp, Hh, Hb0.
        unfold playBuffer, playing_inv.
        destruct (negb (audioContextRef s)); [rewrite <- Hb0 in *; exact Hinv|].
        destruct (suspended log);
          cbn [fst snd hasAudio isPlaying audioBufferRef sourceRef];
          (split; [discriminate | split]);
          try (intros b Hb; apply Hwf; congruence);
          intros b Hin; in_log Hin;
          try (destruct (Hstart b Hin); split; congruence);
          inversion Hin; subst; auto.
      * apply playing_inv_attempt;
          [ exact Hp | right; exact Hb0
          | intros b Hin; destruct (Hstart b Hin); congruence
          | intros b Hb; apply Hwf; congruence ].
      * apply playing_inv_attempt;
          [ exact Hp | left; exact Hh
          | intros b Hin; destruct (Hstart b Hin); congruence
          | intros b Hb; apply Hwf; congruence ].
  - unfold onended, playing_inv.
    cbn [fst snd hasAudio isPlaying audioBufferRef sourceRef].
    split; [discriminate | split; assumption].
Qed.

Lemma playing_inv_run (actions : list Action) (st : PlayerState * list PlayerEvent) :
  playing_inv st -> playing_inv (run actions st).
Proof.
  revert st. unfold AudioPlayer.run.
  induction actions as [|a rest IH]; intros st Hinv; cbn [fold_left].
  - exact Hinv.
  - apply IH, playing_inv_act, Hinv.
Qed.

Lemma playing_inv_initial : playing_inv (initialPlayer, []).
Proof.
  unfold playing_inv. cbn. repeat split; intros; try discriminate; contradiction.
Qed.

(** X14.  In every run of the component, everything that was ever started is one
    and the same buffer, the stored one, and that buffer has one channel at
    24 kHz and all its samples in [-1, 1]. *)
Theorem player_plays_one_decoded_buffer (actions : list Action) (b : AudioBuffer) :
  In (Start b) (snd (run actions (initialPlayer, []))) ->
  audioBufferRef (fst (run actions (initialPlayer, []))) = Some b
  /\ wellFormed b
  /\ forall b', In (Start b') (snd (run actions (initialPlayer, []))) -> b' = b.
Proof.
  intros Hin.
  destruct (playing_inv_run actions playing_inv_initial) as (_ & Hstart & Hwf).
  destruct (Hstart b Hin) as [_ Hb].
  split; [exact Hb | split; [exact (Hwf b Hb)|]].
  intros b' Hin'. destruct (Hstart b' Hin') as [_ Hb']. congruence.
Qed.

(** X15.  In every run of the component, a click while the audio plays stops the
    playing source, and does nothing else: no synthesis request, nothing
    started, the stored buffer kept. *)
Theorem click_while_playing_stops (actions : list Action) :
  isPlaying (fst (run actions (initialPlayer, []))) = true ->
  snd (click (run actions (initialPlayer, [])))
  = snd (run actions (initialPlayer, [])) ++ [Stop]
  /\ isPlaying (fst (click (run actions (initialPlayer, [])))) = false
  /\ sourceRef (fst (click (run actions (initialPlayer, [])))) = None
  /\ audioBufferRef (fst (click (run actions (initialPlayer, []))))
     = audioBufferRef (fst (run actions (initialPlayer, []))).
Proof.
  intros Hp.
  destruct (playing_inv_run actions playing_inv_initial) as (Hsrc & _ & _).
  specialize (Hsrc Hp).
  destruct (run actions (initialPlayer, [])) as [s log]. cbn [fst snd] in *.
  unfold handleGenerateAndPlay. rewrite Hp. unfold stopAudio.
  destruct (sourceRef s); [|contradiction]. cbn. auto.
Qed.

End PlayerFacts.

(** Runs of the scenario player: a first click that decodes and plays, and
    a second click that stops. *)
Section PlayerRuns.

Import AudioPlayer PlayerInvariants Scenario.


Lemma player_plays_one_decoded_buffer_witness :
  wellFormed (mkAudioBuffer 1 24000 [(-32768 # 32768)%Q; (32767 # 32768)%Q]).
Proof.
  refine (proj1 (proj2 (@player_plays_one_decoded_buffer [] false speech atob4
                          (fun _ => false) [Click; Click; Click]
                          (mkAudioBuffer 1 24000 [(-32768 # 32768)%Q; (32767 # 32768)%Q])
                          _))).
  vm_compute. tauto.
Defined.

Lemma click_while_playing_stops_witness :
  snd (handleGenerateAndPlay [] false speech atob4 (fun _ => false)
         (run [] false speech atob4 (fun _ => false) [Click] (initialPlayer, [])))
  = snd (run [] false speech atob4 (fun _ => false) [Click] (initialPlayer, [])) ++ [Stop].
Proof.
  exact (proj1 (@click_while_playing_stops [] false speech atob4 (fun _ => false)
                  [Click] eq_refl)).
Defined.

End PlayerRuns.

(** ** The application beyond the status *)

Section AppFacts.

Import App.

Lemma Forall_without {A} (P : A -> Prop) (k : nat) (l : list A) :
  Forall P l -> Forall P (firstn k l ++ skipn (S k) l).
Proof.
  intros H. rewrite <- (firstn_skipn k l) in H.
  apply Forall_app in H as [H1 H2].
  apply Forall_app. split; [exact H1|].
  change (S k) with (1 + k)%nat. rewrite <- skipn_skipn.
  destruct (skipn k l) as [|x r]; [constructor|].
  cbn. now inversion H2.
Qed.

(** X16.  In every state the application reaches, the Roadmap view is never
    active without an answer to show, and neither is the status success. *)
Theorem view_has_answer saved seen s :
  run_from saved seen s ->
  (activeTab s = view -> answerData s <> None)
  /\ (statusOf s = success -> answerData s <> None).
Proof.
  induction 1 as [|seen s e s' _ [IHv IHs] [Hen ->]].
  - split; discriminate.
  - destruct Hen as [ Ht Hf Hs | k c stored now today Hk | item Ht Hin | Ht Ha
                    | Ht Hf Hs | Ht Hs | f Ht Hs Hv | t Hview | Ht Hh ]; cbn [handle].
    + unfold handleGenerate_begin. destruct (file s); [|contradiction].
      cbn. rewrite Ht. split; discriminate.
    + destruct (nth_error (pending s) k); [|now split].
      unfold handleGenerate_settle, addToHistory.
      destruct c; [destruct stored|]; cbn; split; try discriminate; exact IHv.
    + cbn. split; discriminate.
    + cbn. split; discriminate.
    + cbn. split; discriminate.
    + cbn. split; [exact IHv | discriminate].
    + cbn. split; assumption.
    + cbn. split; [|exact IHs].
      intros ->. apply IHs. now apply Hview.
    + cbn. split; assumption.
Qed.

(** X17.  In every state the application reaches with the status processing, a
    generation call is outstanding: the spinner never shows without a call
    that will settle it. *)
Theorem processing_has_pending_call saved seen s :
  run_from saved seen s -> statusOf s = processing -> pending s <> [].
Proof.
  induction 1 as [|seen s e s' _ IH [Hen ->]]; [discriminate|].
  destruct Hen as [ Ht Hf Hs | k c stored now today Hk | item Ht Hin | Ht Ha
                  | Ht Hf Hs | Ht Hs | f Ht Hs Hv | t Hview | Ht Hh ]; cbn [handle];
    try (cbn; discriminate); try exact IH.
  - unfold handleGenerate_begin. destruct (file s); [|contradiction].
    cbn. intros _ E. now apply app_eq_nil in E as [_ E].
  - destruct (nth_error (pending s) k) eqn:Hp;
      [|apply nth_error_None in Hp; lia].
    unfold handleGenerate_settle, addToHistory.
    destruct c; [destruct stored|]; cbn; discriminate.
Qed.

(** X18.  In every state the application reaches, the selected file and the file
    of every outstanding generation call have passed the upload validation:
    a PDF of at most 20*1024*1024 bytes. *)
Theorem files_are_validated saved seen s :
  run_from saved seen s ->
  (forall f, file s = Some f -> UploadHandlers.acceptable f)
  /\ Forall (fun p => UploadHandlers.acceptable (pendingFile p)) (pending s).
Proof.
  induction 1 as [|seen s e s' _ [IHf IHp] [Hen ->]].
  - split; [discriminate | constructor].
  - destruct Hen as [ Ht Hf Hs | k c stored now today Hk | item Ht Hin | Ht Ha
                    | Ht Hf Hs | Ht Hs | f Ht Hs Hv | t Hview | Ht Hh ]; cbn [handle];
      try (cbn; split; [discriminate || assumption | assumption]).
    + unfold handleGenerate_begin. destruct (file s) as [f|] eqn:Ef; [|contradiction].
      cbn. split; [intros g Hg; apply IHf; congruence|].
      apply Forall_app. split; [exact IHp|].
      constructor; [|constructor]. now apply IHf.
    + destruct (nth_error (pending s) k) eqn:Hp; [|now split].
      assert (Hsub : Forall (fun p => UploadHandlers.acceptable (pendingFile p))
                       (firstn k (pending s) ++ skipn (S k) (pending s))).
      { now apply Forall_without. }
      unfold handleGenerate_settle, addToHistory.
      destruct c; [destruct stored|]; cbn; split; assumption.
    + cbn. split; [|assumption].
      intros g Hg. inversion Hg; subst.
      apply selected_is_acceptable.
      rewrite Hv. discriminate.
Qed.

End AppFacts.

Section AppRuns.

Import App Scenario.

(** The application with the scenario's question bank selected, and then
    generating from it. *)
Lemma run_selected :
  run_from [] [idle; idle] (setFile bank (mounted [])).
Proof.
  refine (@run_step [] [idle] (mounted []) (EvSelectFile bank)
            (setFile bank (mounted [])) _ _).
  - constructor.
  - split; [|reflexivity].
    constructor; [reflexivity | discriminate | reflexivity].
Defined.

Lemma run_generating :
  run_from [] [processing; idle; idle] (handleGenerate_begin (setFile bank (mounted []))).
Proof.
  refine (@run_step [] [idle; idle] (setFile bank (mounted [])) EvGenerate
            (handleGenerate_begin (setFile bank (mounted []))) run_selected _).
  split; [|reflexivity].
  constructor; [reflexivity | discriminate | discriminate].
Defined.

Lemma view_has_answer_witness :
  answerData (loadFromHistory savedGuide (setActiveTab historyTab (mounted [savedGuide])))
  <> None.
Proof.
  exact (proj1 (view_has_answer (run_step run_history_tab step_view_guide)) eq_refl).
Defined.

Lemma processing_has_pending_call_witness :
  pending (handleGenerate_begin (setFile bank (mounted []))) <> [].
Proof.
  exact (processing_has_pending_call run_generating eq_refl).
Defined.

Lemma files_are_validated_witness :
  UploadHandlers.acceptable bank.
Proof.
  exact (proj1 (files_are_validated run_generating) bank eq_refl).
Defined.

End AppRuns.

Section HistoryFacts.

Import App.

Lemma nth_error_last {A} (l : list A) (x : A) :
  nth_error (l ++ [x]) (List.length l) = Some x.
Proof.
  rewrite nth_error_app2 by lia. now rewrite Nat.sub_diag.
Qed.



(** X20.  "Clear All" pressed while a generation is running does not last: when
    the call resolves, [addToHistory] puts the new entry in front of the
    history that the click on "Generate" saw, and the cleared entries are
    back. *)
Theorem clear_all_during_generation_is_undone (s : AppState) (f : File)
    (result : AnswerData) (stored : Completion unit) (now today : jsstring) :
  activeTab s = upload -> file s = Some f -> statusOf s <> processing ->
  history s <> [] ->
  let s1 := handle EvGenerate s in
  let s2 := handle (EvTab historyTab) s1 in
  let s3 := handle EvClearHistory s2 in
  let s4 := handle (EvSettled (List.length (pending s)) (Resolved result) stored
                              now today) s3 in
  enabled s EvGenerate
  /\ enabled s1 (EvTab historyTab)
  /\ enabled s2 EvClearHistory
  /\ enabled s3 (EvSettled (List.length (pending s)) (Resolved result) stored now today)
  /\ history s3 = []
  /\ history s4 = mkHistoryItem now (name f) today result :: history s.
Proof.
  intros Ht Hf Hs Hh. cbv zeta. cbn [handle].
  unfold handleGenerate_begin. rewrite Hf.
  repeat split.
  - constructor; [exact Ht | congruence | exact Hs].
  - constructor. discriminate.
  - constructor; [reflexivity | exact Hh].
  - constructor. cbn. rewrite length_app. cbn. lia.
  - cbn [clearHistory setActiveTab pending]. rewrite nth_error_last.
    unfold handleGenerate_settle, addToHistory. destruct stored; reflexivity.
Qed.

End HistoryFacts.


Lemma clear_all_during_generation_is_undone_witness :
  App.history
    (App.handle (App.EvSettled 0 (Resolved (mkAnswerData (lit "# Plan") (modelId PRO)))
                   (Resolved tt) (lit "1700000000001") (lit "11/15/2023"))
       (App.handle App.EvClearHistory
          (App.handle (App.EvTab App.historyTab)
             (App.handle App.EvGenerate
                (App.setFile Scenario.bank (App.mounted [Scenario.savedGuide]))))))
  = [mkHistoryItem (lit "1700000000001") (lit "bank.pdf") (lit "11/15/2023")
       (mkAnswerData (lit "# Plan") (modelId PRO));
     Scenario.savedGuide].
Proof.
  refine (proj2 (proj2 (proj2 (proj2 (proj2
           (@clear_all_during_generation_is_undone
              (App.setFile Scenario.bank (App.mounted [Scenario.savedGuide]))
              Scenario.bank (mkAnswerData (lit "# Plan") (modelId PRO))
              (Resolved tt) (lit "1700000000001") (lit "11/15/2023")
              eq_refl eq_refl _ _)))))).
  - discriminate.
  - discriminate.
Defined.

(** ** Theme, estimate and clock *)

Section ShellFacts.

Import AppShell.

(** X21.  After a press on the theme switch the body carries the class
    [dark] exactly in dark mode, the mode is the opposite of what it was,
    and two presses in a row give back the mode there was, whether local
    storage takes the write or not.  When the write is accepted, local
    storage holds "dark" or "light" accordingly and a later mount reads the
    stored item back into the same mode; when the write throws, the stored
    item is the one there was. *)
Theorem toggleTheme_keeps_theme_in_step (stored stored' : Completion unit)
    (s : ThemeState) (bodyDark0 : bool) :
  bodyDark (toggleTheme stored s) = isDarkMode (toggleTheme stored s)
  /\ isDarkMode (toggleTheme stored s) = negb (isDarkMode s)
  /\ isDarkMode (toggleTheme stored' (toggleTheme stored s)) = isDarkMode s
  /\ (forall u, stored = Resolved u ->
      study_guider_theme (toggleTheme stored s)
      = Some (if isDarkMode (toggleTheme stored s) then lit "dark" else lit "light")
      /\ isDarkMode (mountTheme (study_guider_theme (toggleTheme stored s)) bodyDark0)
         = isDarkMode (toggleTheme stored s))
  /\ (forall e, stored = Rejected e ->
      study_guider_theme (toggleTheme stored s) = study_guider_theme s).
Proof.
  unfold toggleTheme.
  destruct (isDarkMode s); cbn; repeat split; intros; subst; reflexivity.
Qed.

Lemma toggleTheme_keeps_theme_in_step_witness :
  study_guider_theme (toggleTheme (Resolved tt) (mountTheme None false))
  = Some (lit "dark")
  /\ isDarkMode (mountTheme (study_guider_theme
                               (toggleTheme (Resolved tt) (mountTheme None false)))
                            false) = true.
Proof.
  exact (proj1 (proj2 (proj2 (proj2
           (toggleTheme_keeps_theme_in_step (Resolved tt) (Resolved tt)
              (mountTheme None false) false)))) tt eq_refl).
Defined.

Lemma estimate_fraction (size : N) :
  (15 + (inject_Z (Z.of_N size) / inject_Z (1024 * 1024)) * 10
   == (15 * 1048576 + 10 * Z.of_N size) # 1048576)%Q.
Proof.
  unfold Qeq, Qdiv, Qinv, Qmult, Qplus, inject_Z.
  change (1024 * 1024)%Z with 1048576%Z. cbn [Qnum Qden].
  rewrite ?Pos.mul_1_l, ?Pos.mul_1_r. lia.
Qed.

Lemma estimatedTime_closed_form (size : N) :
  estimatedTime size
  = Z.min ((15 * 1048576 + 10 * Z.of_N size) / 1048576) 120.
Proof.
  unfold estimatedTime. cbv zeta.
  rewrite (Qfloor_comp _ _ (estimate_fraction size)). reflexivity.
Qed.

(** X22.  The estimate shown for a selected file (of a size below 2^45 bytes,
    where the arithmetic of the source is exact): at least 15 seconds, at most
    120; it never decreases when the file grows; below the cap it is 15
    plus ten times the size in MiB, rounded down, and it is at the cap of
    120 exactly from 11010048 bytes (10.5 MiB) on. *)
Theorem estimatedTime_bounds (size size' : N) :
  (size < 2 ^ 45)%N -> (size' < 2 ^ 45)%N ->
  (15 <= estimatedTime size <= 120)%Z
  /\ ((size <= size')%N -> (estimatedTime size <= estimatedTime size')%Z)
  /\ (estimatedTime size = 120%Z <-> (11010048 <= size)%N)
  /\ ((size < 11010048)%N ->
      estimatedTime size = (15 + (10 * Z.of_N size) / 1048576)%Z).
Proof.
  intros _ _.
  rewrite !estimatedTime_closed_form.
  assert (Hdiv : forall n : N,
             ((15 * 1048576 + 10 * Z.of_N n) / 1048576
              = 15 + (10 * Z.of_N n) / 1048576)%Z).
  { intros n. rewrite Z.add_comm, Z.div_add by lia. lia. }
  rewrite !Hdiv.
  assert (Hpos : forall n : N, (0 <= (10 * Z.of_N n) / 1048576)%Z).
  { intros n. apply Z.div_pos; lia. }
  split; [|split; [|split]].
  - pose proof (Hpos size). lia.
  - intros Hle.
    assert ((10 * Z.of_N size) / 1048576 <= (10 * Z.of_N size') / 1048576)%Z
      by (apply Z.div_le_mono; lia).
    lia.
  - split.
    + intros H.
      assert (Hge : (105 <= (10 * Z.of_N size) / 1048576)%Z) by lia.
      assert ((10 * Z.of_N size) / 1048576 * 1048576 <= 10 * Z.of_N size)%Z.
      { rewrite Z.mul_comm. apply Z.mul_div_le. lia. }
      lia.
    + intros H.
      assert (Hge : (105 <= (10 * Z.of_N size) / 1048576)%Z).
      { apply Z.div_le_lower_bound; lia. }
      lia.
  - intros H.
    assert (Hlt : ((10 * Z.of_N size) / 1048576 < 105)%Z).
    { apply Z.div_lt_upper_bound; lia. }
    lia.
Qed.

Lemma estimatedTime_bounds_witness :
  (estimatedTime 2097152 <= estimatedTime 20971520)%Z.
Proof.
  apply (proj1 (proj2 (@estimatedTime_bounds 2097152 20971520 eq_refl eq_refl))).
  vm_compute. discriminate.
Defined.

End ShellFacts.

Section ClockFacts.

Import AppShell.

Lemma lit_units_small (str : string) :
  forallb (fun c => (c <? 256)%N) (lit str) = true.
Proof.
  unfold lit. apply forallb_forall. intros c Hc.
  apply in_map_iff in Hc as (a & <- & _).
  apply N.ltb_lt, N_ascii_bounded.
Qed.

Lemma unlit_lit (str : string) :
  string_of_list_ascii (List.map ascii_of_N (lit str)) = str.
Proof.
  unfold lit. rewrite map_map.
  rewrite (map_ext _ (fun a => a)) by (intros a; apply ascii_N_embedding).
  rewrite map_id. apply string_of_list_ascii_of_string.
Qed.

Lemma readDecimal_lit (str : string) :
  readDecimal (lit str) = option_map N.of_uint (NilZero.uint_of_string str).
Proof.
  unfold readDecimal. now rewrite lit_units_small, unlit_lit.
Qed.

(** The digits of a number read back as the number. *)
Lemma readDecimal_toString (n : N) : readDecimal (toString n) = Some n.
Proof.
  unfold toString. rewrite readDecimal_lit.
  rewrite NilZero.usu.
  - cbn [option_map]. now rewrite DecimalN.Unsigned.of_to.
  - destruct n as [|p]; [discriminate|].
    apply DecimalPos.Unsigned.to_uint_nonnil.
Qed.

Lemma seconds_two_digits (k : N) :
  (k < 60)%N ->
  List.length (padStart 2 48 (toString k)) = 2%nat
  /\ readDecimal (padStart 2 48 (toString k)) = Some k.
Proof.
  intros Hk.
  assert (Hall : forallb
            (fun i => let k := N.of_nat i in
                      (List.length (padStart 2 48 (toString k)) =? 2)%nat
                      && match readDecimal (padStart 2 48 (toString k)) with
                         | Some v => N.eqb v k
                         | None => false
                         end)
            (seq 0 60) = true) by (vm_compute; reflexivity).
  rewrite forallb_forall in Hall.
  specialize (Hall (N.to_nat k)).
  rewrite N2Nat.id in Hall. cbv zeta in Hall.
  assert (Hin : In (N.to_nat k) (seq 0 60)) by (apply in_seq; lia).
  apply Hall in Hin. apply andb_true_iff in Hin as [Hl Hr].
  split; [now apply Nat.eqb_eq|].
  destruct (readDecimal (padStart 2 48 (toString k))) as [v|]; [|discriminate].
  apply N.eqb_eq in Hr. now subst.
Qed.

(** X23.  The clock text of an elapsed time: the minutes in decimal, a colon, and
    the seconds on exactly two digits; read back, the two numerals are the
    quotient and the remainder of the seconds by 60. *)
Theorem formatTime_reads_back (seconds : N) :
  exists mm ss,
    formatTime seconds = mm ++ lit ":" ++ ss
    /\ List.length ss = 2%nat
    /\ readDecimal mm = Some (seconds / 60)%N
    /\ readDecimal ss = Some (seconds mod 60)%N.
Proof.
  exists (toString (seconds / 60)), (padStart 2 48 (toString (seconds mod 60))).
  assert (Hk : (seconds mod 60 < 60)%N) by (apply N.mod_lt; discriminate).
  destruct (seconds_two_digits Hk) as [Hl Hr].
  repeat split; [exact Hl | apply readDecimal_toString | exact Hr].
Qed.

Lemma app_same_length_head {A} (a a' b b' : list A) :
  List.length a = List.length a' -> a ++ b = a' ++ b' -> a = a' /\ b = b'.
Proof.
  revert a'. induction a as [|x a IH]; intros [|x' a'] Hl Heq;
    try discriminate Hl.
  - now split.
  - cbn in Heq. injection Heq as -> Heq. injection Hl as Hl.
    destruct (IH a' Hl Heq) as [-> ->]. now split.
Qed.

Lemma app_same_length_tail {A} (a a' b b' : list A) :
  List.length b = List.length b' -> a ++ b = a' ++ b' -> a = a' /\ b = b'.
Proof.
  intros Hl Heq.
  apply (f_equal (@rev A)) in Heq. rewrite !rev_app_distr in Heq.
  apply app_same_length_head in Heq as [Hb Ha];
    [|now rewrite !length_rev].
  split; apply rev_inj; assumption.
Qed.

(** X24.  Two different elapsed times never show as the same clock text. *)
Theorem formatTime_injective (a b : N) :
  a <> b -> formatTime a <> formatTime b.
Proof.
  intros Hne Heq. apply Hne.
  assert (Ha : (a mod 60 < 60)%N) by (apply N.mod_lt; discriminate).
  assert (Hb : (b mod 60 < 60)%N) by (apply N.mod_lt; discriminate).
  destruct (seconds_two_digits Ha) as [Hla Hra].
  destruct (seconds_two_digits Hb) as [Hlb Hrb].
  unfold formatTime in Heq. cbv zeta in Heq.
  rewrite !app_assoc in Heq.
  apply app_same_length_tail in Heq as [Hm Hs]; [|congruence].
  apply app_inv_tail in Hm.
  assert (Hq : (a / 60 = b / 60)%N).
  { pose proof (readDecimal_toString (a / 60)) as H1.
    rewrite Hm, readDecimal_toString in H1. congruence. }
  assert (Hr : (a mod 60 = b mod 60)%N).
  { rewrite Hs in Hra. congruence. }
  rewrite (N.div_mod a 60), (N.div_mod b 60) by discriminate.
  now rewrite Hq, Hr.
Qed.

Lemma formatTime_injective_witness : formatTime 59 <> formatTime 119.
Proof.
  apply formatTime_injective. discriminate.
Defined.

End ClockFacts.

(** ** The video generator *)

Section VideoGeneratorFacts.

Import GeminiService VideoGenerator.

Variable contextText : jsstring.
Variable API_KEY : option jsstring.
Variable aistudio : bool.
Variable hasSelectedApiKey : Completion bool.
Variable openSelectKey : Completion bool.
Variable generateVideos : list VeoEvent -> VeoEvent -> Completion VideoOperation.
Variable getVideosOperation : list VeoEvent -> VeoEvent -> Completion VideoOperation.
Variable fetchBlob : jsstring -> Completion jsstring.
Variable createObjectURL : jsstring -> jsstring.

Local Abbreviation handleGenerate :=
  (VideoGenerator.handleGenerate contextText API_KEY aistudio hasSelectedApiKey
     openSelectKey generateVideos getVideosOperation fetchBlob createObjectURL).

Lemma failed_shape (e : JsError) (s : VideoState) :
  isGenerating (failed e s) = false
  /\ topic (failed e s) = topic s
  /\ videoUrl (failed e s) = videoUrl s
  /\ exists m, VideoGenerator.error (failed e s) = Some m /\ m <> [].
Proof.
  unfold failed. cbn. repeat split.
  destruct (errMessage e) as [|c r]; eexists; split; try reflexivity; discriminate.
Qed.

Lemma no_object_url_in_veo (veo : list VeoEvent) (blob : jsstring) :
  ~ In (CreateObjectURL blob) (List.map Veo veo).
Proof.
  intros H. apply in_map_iff in H as (x & Hx & _). discriminate Hx.
Qed.

Lemma no_object_url_in_checkKey (blob : jsstring) :
  ~ In (CreateObjectURL blob) (snd (checkKey aistudio hasSelectedApiKey openSelectKey)).
Proof.
  unfold checkKey.
  destruct aistudio; [|intros []].
  destruct hasSelectedApiKey as [[|]|e]; try destruct openSelectKey as [b|e'];
    cbn; intuition discriminate.
Qed.

(** X25.  How [handleGenerate] ends.  With an empty topic it does nothing at all.
    Otherwise, once settled, the generating flag is down, and either a video
    is shown (an object URL was made, no error, no status text), or an error
    with a message that is not empty is shown, the video shown before is
    kept, and no object URL was made.  While it is still polling, the
    generating flag is up (the button is disabled) and no error is shown. *)
Theorem video_handleGenerate_outcome (fuel : nat) (s : VideoState) :
  (topic s = [] -> handleGenerate fuel s = Settled s [])
  /\ (forall s' log,
        topic s <> [] -> handleGenerate fuel s = Settled s' log ->
        isGenerating s' = false
        /\ topic s' = topic s
        /\ ((exists blob earlier,
               videoUrl s' = Some (createObjectURL blob)
               /\ VideoGenerator.error s' = None
               /\ statusMsg s' = []
               /\ log = earlier ++ [CreateObjectURL blob])
            \/ (videoUrl s' = videoUrl s
                /\ (exists m, VideoGenerator.error s' = Some m /\ m <> [])
                /\ forall blob, ~ In (CreateObjectURL blob) log)))
  /\ (forall s' log,
        handleGenerate fuel s = Waiting s' log ->
        isGenerating s' = true
        /\ VideoGenerator.error s' = None
        /\ videoUrl s' = videoUrl s
        /\ statusMsg s' = DREAMING).
Proof.
  unfold VideoGenerator.handleGenerate.
  destruct (topic s) as [|c r] eqn:Ht.
  { split; [reflexivity | split; [intros ? ? H; now elim H | discriminate]]. }
  cbn [topic videoUrl setStatusMsg isGenerating statusMsg VideoGenerator.error].
  generalize (firstn 300 contextText). intros excerpt.
  pose proof (fun blob => no_object_url_in_checkKey blob) as Hkey.
  destruct (checkKey aistudio hasSelectedApiKey openSelectKey) as [[[] | e] klog].
  2: { split; [discriminate | split; [|discriminate]].
       intros s' log _ H. inversion H; subst.
       destruct (failed_shape e (mkVideo (c :: r) (videoUrl s) true CHECKING None))
         as (H1 & H2 & H3 & H4).
       repeat split; auto. }
  cbn [snd] in Hkey.
  destruct (generateEducationalVideo generateVideos getVideosOperation fuel
              ((c :: r) ++ CONTEXT_LEAD ++ excerpt) []) as [[[uri|] | e] veo].
  - destruct (fetchBlob (fetchUrl API_KEY uri)) as [blob | e].
    + split; [discriminate | split; [|discriminate]].
      intros s' log _ H. inversion H; subst. cbn.
      repeat split. left. exists blob. eexists. repeat split.
    + split; [discriminate | split; [|discriminate]].
      intros s' log _ H. inversion H; subst.
      destruct (failed_shape e (mkVideo (c :: r) (videoUrl s) true RENDERING None))
        as (H1 & H2 & H3 & H4).
      repeat split; auto. right. repeat split; auto.
      intros blob Hin.
      apply in_app_or in Hin as [Hin | Hin]; [now apply (Hkey blob)|].
      apply in_app_or in Hin as [Hin | Hin];
        [now apply (no_object_url_in_veo veo blob)|].
      destruct Hin as [Hin | []]. discriminate Hin.
  - split; [discriminate | split; [discriminate|]].
    intros s' log H. inversion H; subst. cbn. repeat split.
  - split; [discriminate | split; [|discriminate]].
    intros s' log _ H. inversion H; subst.
    destruct (failed_shape e (mkVideo (c :: r) (videoUrl s) true DREAMING None))
      as (H1 & H2 & H3 & H4).
    repeat split; auto. right. repeat split; auto.
    intros blob Hin.
    apply in_app_or in Hin as [Hin | Hin]; [now apply (Hkey blob)|].
    now apply (no_object_url_in_veo veo blob).
Qed.

Lemma rounds_have_no_request (ops : list VideoOperation) (p : jsstring) :
  ~ In (GenerateVideos p)
       (flat_map (fun o => [SetTimeout 5000; GetVideosOperation o]) ops).
Proof.
  intros H. apply in_flat_map in H as (o & _ & [H | [H | []]]); discriminate H.
Qed.

Lemma checkKey_has_no_veo (e : VeoEvent) :
  ~ In (Veo e) (snd (checkKey aistudio hasSelectedApiKey openSelectKey)).
Proof.
  unfold checkKey.
  destruct aistudio; [|intros []].
  destruct hasSelectedApiKey as [[|]|e0]; try destruct openSelectKey as [b|e'];
    cbn; intuition discriminate.
Qed.

(** X26.  What the video endpoint is told of the guide: at most its first 300
    units.  The rest of the guide has no influence on a run, and every
    generation request in the log carries the fixed lead-in, the topic, and
    that excerpt. *)
Theorem video_request_carries_excerpt (fuel : nat) (s : VideoState) :
  VideoGenerator.handleGenerate (firstn 300 contextText) API_KEY aistudio
    hasSelectedApiKey openSelectKey generateVideos getVideosOperation fetchBlob
    createObjectURL fuel s
  = handleGenerate fuel s
  /\ (List.length (firstn 300 contextText) <= 300)%nat
  /\ (forall s' log p,
        handleGenerate fuel s = Settled s' log \/ handleGenerate fuel s = Waiting s' log ->
        In (Veo (GenerateVideos p)) log ->
        p = VIDEO_PROMPT_PREFIX ++ topic s ++ CONTEXT_LEAD ++ firstn 300 contextText).
Proof.
  split; [|split].
  - unfold VideoGenerator.handleGenerate. now rewrite firstn_firstn, Nat.min_id.
  - apply firstn_le_length.
  - unfold VideoGenerator.handleGenerate.
    generalize (firstn 300 contextText). intros excerpt.
    destruct (topic s) as [|c r] eqn:Ht.
    { intros s' log p [H | H]; inversion H; subst. intros []. }
    cbn [topic videoUrl setStatusMsg isGenerating statusMsg VideoGenerator.error].
    pose proof (fun e => checkKey_has_no_veo e) as Hkey.
    destruct (checkKey aistudio hasSelectedApiKey openSelectKey) as [[[] | e] klog];
      cbn [snd] in Hkey.
    2: { intros s' log p [H | H]; inversion H; subst.
         intros Hin. now elim (Hkey _ Hin). }
    assert (Hreq : forall p,
               In (Veo (GenerateVideos p))
                  (List.map Veo
                     (snd (generateEducationalVideo generateVideos getVideosOperation
                             fuel ((c :: r) ++ CONTEXT_LEAD ++ excerpt) []))) ->
               p = VIDEO_PROMPT_PREFIX ++ (c :: r) ++ CONTEXT_LEAD ++ excerpt).
    { intros p Hin. apply in_map_iff in Hin as (x & Hx & Hin).
      inversion Hx; subst.
      exact (generateEducationalVideo_single_request generateVideos
               getVideosOperation fuel _ p Hin). }
    destruct (generateEducationalVideo generateVideos getVideosOperation fuel
                ((c :: r) ++ CONTEXT_LEAD ++ excerpt) []) as [[[uri|] | e] veo];
      cbn [snd] in Hreq.
    + destruct (fetchBlob (fetchUrl API_KEY uri)) as [blob | e];
        intros s' log p [H | H]; inversion H; subst; intros Hin;
        repeat (apply in_app_or in Hin; destruct Hin as [Hin | Hin]);
        try (now elim (Hkey _ Hin)); try (now apply Hreq);
        cbn in Hin; intuition discriminate.
    + intros s' log p [H | H]; inversion H; subst; intros Hin.
      apply in_app_or in Hin as [Hin | Hin];
        [now elim (Hkey _ Hin) | now apply Hreq].
    + intros s' log p [H | H]; inversion H; subst; intros Hin.
      apply in_app_or in Hin as [Hin | Hin];
        [now elim (Hkey _ Hin) | now apply Hreq].
Qed.

(** X27.  The key check comes first: the select-key dialog is opened only where
    [window.aistudio] exists and reported that no key is selected, and when
    the key check throws, no video is requested and nothing is fetched. *)
Theorem video_key_check_first (fuel : nat) (s s' : VideoState) (log : list VgEvent) :
  handleGenerate fuel s = Settled s' log \/ handleGenerate fuel s = Waiting s' log ->
  (In OpenSelectKey log ->
   aistudio = true /\ hasSelectedApiKey = Resolved false)
  /\ (forall e,
        fst (checkKey aistudio hasSelectedApiKey openSelectKey) = Rejected e ->
        topic s <> [] ->
        handleGenerate fuel s
        = Settled (failed e (mkVideo (topic s) (videoUrl s) true CHECKING None))
                  (snd (checkKey aistudio hasSelectedApiKey openSelectKey))
        /\ forall ev, In ev (snd (checkKey aistudio hasSelectedApiKey openSelectKey)) ->
                      ev = HasSelectedApiKey \/ ev = OpenSelectKey).
Proof.
  intros Hrun. split.
  - revert Hrun. unfold VideoGenerator.handleGenerate.
    generalize (firstn 300 contextText). intros excerpt.
    destruct (topic s) as [|c r] eqn:Ht.
    { intros [H | H]; inversion H; subst. intros []. }
    cbn [topic videoUrl setStatusMsg isGenerating statusMsg VideoGenerator.error].
    assert (Hkey : In OpenSelectKey (snd (checkKey aistudio hasSelectedApiKey openSelectKey))
                   -> aistudio = true /\ hasSelectedApiKey = Resolved false).
    { unfold checkKey. destruct aistudio; [|intros []].
      destruct hasSelectedApiKey as [[|]|e0]; try destruct openSelectKey as [b|e'];
        cbn; intuition discriminate. }
    assert (Hveo : forall veo, ~ In OpenSelectKey (List.map Veo veo)).
    { intros veo H. apply in_map_iff in H as (x & Hx & _). discriminate Hx. }
    destruct (checkKey aistudio hasSelectedApiKey openSelectKey) as [[[] | e] klog];
      cbn [snd] in Hkey.
    2: { intros [H | H]; inversion H; subst. exact Hkey. }
    destruct (generateEducationalVideo generateVideos getVideosOperation fuel
                ((c :: r) ++ CONTEXT_LEAD ++ excerpt) []) as [[[uri|] | e] veo].
    + destruct (fetchBlob (fetchUrl API_KEY uri)) as [blob | e];
        intros [H | H]; inversion H; subst; intros Hin;
        repeat (apply in_app_or in Hin; destruct Hin as [Hin | Hin]);
        try (now apply Hkey); try (now elim (Hveo veo));
        cbn in Hin; intuition discriminate.
    + intros [H | H]; inversion H; subst; intros Hin.
      apply in_app_or in Hin as [Hin | Hin]; [now apply Hkey | now elim (Hveo veo)].
    + intros [H | H]; inversion H; subst; intros Hin.
      apply in_app_or in Hin as [Hin | Hin]; [now apply Hkey | now elim (Hveo veo)].
  - intros e He Ht. clear Hrun. unfold VideoGenerator.handleGenerate.
    destruct (topic s) as [|c r]; [now elim Ht|].
    cbn [topic videoUrl].
    split.
    + destruct (checkKey aistudio hasSelectedApiKey openSelectKey) as [[[] | e0] klog];
        cbn [fst snd] in *; [discriminate | now inversion He].
    + unfold checkKey. destruct aistudio; [|intros ev []].
      destruct hasSelectedApiKey as [[|]|e0]; try destruct openSelectKey as [b|e'];
        cbn; intuition.
Qed.

End VideoGeneratorFacts.

(** A run of the video generator on the scenario's endpoint, whose
    operation completes at the third query without a URI. *)
Section VideoGeneratorRuns.

Import GeminiService VideoGenerator Scenario.

Lemma video_run_no_uri :
  VideoGenerator.handleGenerate (lit "# Study Plan") None true (Resolved true)
    (Resolved true) startVideo doneAtThird
    (fun _ => Resolved (lit "blob")) (fun _ => lit "blob:local") 10
    (mkVideo (lit "Newton") None false [] None)
  = Settled (failed (mkError NO_URI_MESSAGE)
               (mkVideo (lit "Newton") None true DREAMING None))
            [HasSelectedApiKey;
             Veo (GenerateVideos
                    (VIDEO_PROMPT_PREFIX ++ lit "Newton" ++ CONTEXT_LEAD
                       ++ lit "# Study Plan"));
             Veo (SetTimeout 5000); Veo (GetVideosOperation (mkOperation false None));
             Veo (SetTimeout 5000); Veo (GetVideosOperation (mkOperation false None));
             Veo (SetTimeout 5000); Veo (GetVideosOperation (mkOperation false None))].
Proof. vm_compute. reflexivity. Defined.

Lemma video_handleGenerate_outcome_witness :
  isGenerating (failed (mkError NO_URI_MESSAGE)
                  (mkVideo (lit "Newton") None true DREAMING None)) = false.
Proof.
  refine (proj1 (proj1 (proj2 (@video_handleGenerate_outcome
            (lit "# Study Plan") None true (Resolved true) (Resolved true)
            startVideo doneAtThird (fun _ => Resolved (lit "blob"))
            (fun _ => lit "blob:local") 10 (mkVideo (lit "Newton") None false [] None)))
            _ _ _ video_run_no_uri)).
  discriminate.
Defined.

Lemma video_request_carries_excerpt_witness :
  VIDEO_PROMPT_PREFIX ++ lit "Newton" ++ CONTEXT_LEAD ++ lit "# Study Plan"
  = VIDEO_PROMPT_PREFIX ++ lit "Newton" ++ CONTEXT_LEAD ++ firstn 300 (lit "# Study Plan").
Proof.
  refine (proj2 (proj2 (@video_request_carries_excerpt
            (lit "# Study Plan") None true (Resolved true) (Resolved true)
            startVideo doneAtThird (fun _ => Resolved (lit "blob"))
            (fun _ => lit "blob:local") 10 (mkVideo (lit "Newton") None false [] None)))
            _ _ _ (or_introl video_run_no_uri) _).
  right. left. reflexivity.
Defined.

Lemma video_key_check_first_witness :
  VideoGenerator.handleGenerate (lit "# Study Plan") None true (Resolved false)
    (Rejected (mkError (lit "dialog closed"))) startVideo doneAtThird
    (fun _ => Resolved (lit "blob")) (fun _ => lit "blob:local") 10
    (mkVideo (lit "Newton") None false [] None)
  = Settled (failed (mkError (lit "dialog closed"))
               (mkVideo (lit "Newton") None true CHECKING None))
            [HasSelectedApiKey; OpenSelectKey].
Proof.
  refine (proj1 (proj2 (@video_key_check_first
            (lit "# Study Plan") None true (Resolved false)
            (Rejected (mkError (lit "dialog closed")))
            startVideo doneAtThird (fun _ => Resolved (lit "blob"))
            (fun _ => lit "blob:local") 10 (mkVideo (lit "Newton") None false [] None)
            (failed (mkError (lit "dialog closed"))
               (mkVideo (lit "Newton") None true CHECKING None))
            [HasSelectedApiKey; OpenSelectKey] (or_introl eq_refl))
            (mkError (lit "dialog closed")) eq_refl _)).
  discriminate.
Defined.

End VideoGeneratorRuns.
